(** * Planning pipeline of travel-buddy-ai: POI selection and route/time
      optimisation, embedded shallowly.

    Python integers are [Z], identifiers (UUIDs) are [N], strings are
    [string]; floating-point fields that the pipeline only carries around
    (rating, coordinates, rank score) are rationals.  Objects stored as JSON
    blobs are kept as the values they are parsed back into. *)

From Stdlib Require Import ZArith QArith Ascii.
From stdpp Require Import base option list gmap strings.

Local Open Scope string_scope.
Local Open Scope list_scope.
Local Open Scope Z_scope.

(* ===================================================================== *)
(** ** Domain model (src.domain.models, src.domain.schemas) *)
(* ===================================================================== *)

Module Domain.

Definition UUID := N.

(** Modelled from the spec: the [BlockType] enumeration of
    src/domain/models.py (meal, activity, nightlife, rest, travel). *)
Inductive BlockType := MEAL | ACTIVITY | NIGHTLIFE | REST | TRAVEL.

#[global] Instance BlockType_eq_dec : EqDecision BlockType.
Proof. solve_decision. Defined.

Record POICandidate := {
  poi_id : UUID;
  name : string;
  category : string;
  tags : list string;
  rating : option Q;
  location : string;
  lat : option Q;
  lon : option Q;
  rank_score : Q;
}.

Record SkeletonBlock := {
  sb_block_type : BlockType;
  sb_start_time : string;
  sb_end_time : string;
  sb_theme : option string;
  desired_categories : list string;
}.

Record DaySkeleton := {
  ds_day_number : Z;
  ds_date : string;
  ds_theme : string;
  ds_blocks : list SkeletonBlock;
}.

Record MacroPlan := { days : list DaySkeleton }.

Record TripSpec := {
  city : string;
  budget : string;
  hotel_location : option string;
}.

Record POIPlanBlock := {
  day_number : Z;
  block_index : Z;
  block_theme : string;
  block_type : BlockType;
  candidates : list POICandidate;
}.

Record ItineraryBlock := {
  ib_block_type : BlockType;
  start_time : string;
  end_time : string;
  poi : option POICandidate;
  travel_time_from_prev : Z;
  travel_distance_meters : option Z;
  travel_polyline : option string;
  notes : option string;
}.

Record ItineraryDay := {
  id_day_number : Z;
  id_date : string;
  id_theme : string;
  id_blocks : list ItineraryBlock;
}.

Record POIPlanResponse := {
  ppr_trip_id : UUID;
  ppr_blocks : list POIPlanBlock;
  ppr_created_at : string;
}.

Record ItineraryResponse := {
  ir_trip_id : UUID;
  ir_days : list ItineraryDay;
  ir_created_at : string;
}.

(** The row of the itineraries table (src.infrastructure.models): the POI
    plan and the itinerary days live in the same record. *)
Record ItineraryModel := {
  im_trip_id : UUID;
  poi_plan : option (list POIPlanBlock);
  poi_plan_created_at : option string;
  im_days : option (list ItineraryDay);
  itinerary_created_at : option string;
  im_created_at : string;
  im_updated_at : string;
}.

(** Modelled from the spec: the persistence layer, as the three lookups
    the planners make by trip id. *)
Record Database := {
  trips : gmap UUID TripSpec;
  macro_plans : gmap UUID MacroPlan;
  itineraries : gmap UUID ItineraryModel;
}.

(** Python's [x or default] on an optional string: [None] and the empty
    string are both falsy. *)
Definition str_or (x : option string) (default : string) : string :=
  match x with
  | Some s => if decide (s = "") then default else s
  | None => default
  end.

(** Truthiness of an optional list ([not xs] is true for [None] and []). *)
Definition list_truthy {A} (x : option (list A)) : bool :=
  match x with
  | Some (_ :: _) => true
  | _ => false
  end.

(** Exceptions, and the outcome of a call that may raise. *)
Inductive Exception :=
| ValueError (msg : string)
| UpstreamError (msg : string).

Inductive Result (A : Type) :=
| Ok (a : A)
| Raise (e : Exception).
Arguments Ok {A} a.
Arguments Raise {A} e.

End Domain.
Import Domain.

(* ===================================================================== *)
(** ** Travel time (src.infrastructure.travel_time) *)
(* ===================================================================== *)

Module TravelTime.

Record TravelLocation := {
  tl_lat : option Q;
  tl_lon : option Q;
  address : option string;
}.

Record TravelTimeResult := {
  duration_minutes : Z;
  distance_meters : option Z;
  polyline : option string;
}.

(** Modelled from the spec: [TravelLocation.from_poi], the venue's
    location, or a neutral/unset location when there is no venue. *)
Definition from_poi (p : option POICandidate) : TravelLocation :=
  match p with
  | Some c => {| tl_lat := lat c; tl_lon := lon c; address := Some (location c) |}
  | None => {| tl_lat := None; tl_lon := None; address := None |}
  end.

(** The [TravelTimeProvider] interface.  An estimate may consult the
    outside world [W] (network, caches); callers always get some
    estimate. *)
Class TravelTimeProvider (W : Type) := {
  estimate_travel :
    TravelLocation -> TravelLocation -> W -> TravelTimeResult * W;
}.

End TravelTime.
Import TravelTime.

(* ===================================================================== *)
(** ** Route & time optimizer (src/application/route_optimizer.py) *)
(* ===================================================================== *)

Module RouteTimeOptimizer.

Definition BLOCK_TYPES_NEEDING_POIS : list BlockType :=
  [MEAL; ACTIVITY; NIGHTLIFE].

Definition _block_needs_poi (bt : BlockType) : bool :=
  bool_decide (bt ∈ BLOCK_TYPES_NEEDING_POIS).

(** The search loop of [_select_poi_for_block]: the first POI plan block
    with the given day number and block index. *)
Fixpoint find_matching_block (dn idx : Z) (poi_plan_blocks : list POIPlanBlock)
  : option POIPlanBlock :=
  match poi_plan_blocks with
  | [] => None
  | poi_block :: rest =>
      if (day_number poi_block =? dn) && (block_index poi_block =? idx)
      then Some poi_block
      else find_matching_block dn idx rest
  end.

Definition _select_poi_for_block (dn idx : Z)
    (poi_plan_blocks : list POIPlanBlock) : option POICandidate :=
  match find_matching_block dn idx poi_plan_blocks with
  | None => None
  | Some matching_block =>
      match candidates matching_block with
      | [] => None
      | c :: _ => Some c
      end
  end.

Section Loop.
Context {W : Type} `{TravelTimeProvider W}.

(** One iteration of the inner loop of [generate_itinerary]: the
    itinerary block built for [skeleton_block], the previous-venue cursor
    and the world after it. *)
Definition process_block (dn : Z) (poi_plan_blocks : list POIPlanBlock)
    (idx : nat) (skeleton_block : SkeletonBlock)
    (prev_poi : option POICandidate) (w : W)
  : ItineraryBlock * option POICandidate * W :=
  let '(selected_poi, travel, prev_poi', w') :=
    if _block_needs_poi (sb_block_type skeleton_block) then
      let selected_poi :=
        _select_poi_for_block dn (Z.of_nat idx) poi_plan_blocks in
      if bool_decide (is_Some prev_poi) || bool_decide (is_Some selected_poi)
      then
        let '(travel_result, w') :=
          estimate_travel (from_poi prev_poi) (from_poi selected_poi) w in
        (selected_poi,
         (duration_minutes travel_result,
          distance_meters travel_result,
          polyline travel_result),
         selected_poi, w')
      else (selected_poi, (0, None, None), selected_poi, w)
    else (None, (0, None, None), prev_poi, w) in
  let notes :=
    match sb_block_type skeleton_block with
    | REST => Some (str_or (sb_theme skeleton_block) "Rest at hotel")
    | TRAVEL => Some (str_or (sb_theme skeleton_block) "Travel time")
    | _ => None
    end in
  ({| ib_block_type := sb_block_type skeleton_block;
      start_time := sb_start_time skeleton_block;
      end_time := sb_end_time skeleton_block;
      poi := selected_poi;
      travel_time_from_prev := travel.1.1;
      travel_distance_meters := travel.1.2;
      travel_polyline := travel.2;
      notes := notes |},
   prev_poi', w').

(** The inner loop over [enumerate(day_skeleton.blocks)], started at
    index [idx] with cursor [prev_poi]. *)
Fixpoint generate_blocks (dn : Z) (poi_plan_blocks : list POIPlanBlock)
    (idx : nat) (blocks : list SkeletonBlock)
    (prev_poi : option POICandidate) (w : W)
  : list ItineraryBlock * option POICandidate * W :=
  match blocks with
  | [] => ([], prev_poi, w)
  | skeleton_block :: rest =>
      let '(itinerary_block, prev_poi', w') :=
        process_block dn poi_plan_blocks idx skeleton_block prev_poi w in
      let '(itinerary_blocks, prev_poi'', w'') :=
        generate_blocks dn poi_plan_blocks (S idx) rest prev_poi' w' in
      (itinerary_block :: itinerary_blocks, prev_poi'', w'')
  end.

Definition generate_day (poi_plan_blocks : list POIPlanBlock)
    (day_skeleton : DaySkeleton) (w : W) : ItineraryDay * W :=
  let '(itinerary_blocks, _, w') :=
    generate_blocks (ds_day_number day_skeleton) poi_plan_blocks 0
      (ds_blocks day_skeleton) None w in
  ({| id_day_number := ds_day_number day_skeleton;
      id_date := ds_date day_skeleton;
      id_theme := ds_theme day_skeleton;
      id_blocks := itinerary_blocks |}, w').

(** The outer loop over [macro_plan.days]. *)
Fixpoint generate_days (poi_plan_blocks : list POIPlanBlock)
    (day_skeletons : list DaySkeleton) (w : W) : list ItineraryDay * W :=
  match day_skeletons with
  | [] => ([], w)
  | day_skeleton :: rest =>
      let '(itinerary_day, w') := generate_day poi_plan_blocks day_skeleton w in
      let '(itinerary_days, w'') := generate_days poi_plan_blocks rest w' in
      (itinerary_day :: itinerary_days, w'')
  end.

(** [generate_itinerary]: [now] is the ISO form of [datetime.utcnow()]. *)
Definition generate_itinerary (trip_id : UUID) (now : string)
    (db : Database) (w : W)
  : Result ItineraryResponse * Database * W :=
  match trips db !! trip_id with
  | None => (Raise (ValueError "Trip not found"), db, w)
  | Some trip_spec =>
    match macro_plans db !! trip_id with
    | None =>
        (Raise (ValueError "No macro plan found. Generate macro plan first."),
         db, w)
    | Some macro_plan =>
      match itineraries db !! trip_id with
      | None =>
          (Raise (ValueError "No POI plan found. Generate POI plan first."),
           db, w)
      | Some itinerary_model =>
        if negb (list_truthy (poi_plan itinerary_model)) then
          (Raise (ValueError "No POI plan found. Generate POI plan first."),
           db, w)
        else
          let poi_plan_blocks := default [] (poi_plan itinerary_model) in
          let '(itinerary_days, w') :=
            generate_days poi_plan_blocks (days macro_plan) w in
          let itinerary_model' :=
            {| im_trip_id := im_trip_id itinerary_model;
               poi_plan := poi_plan itinerary_model;
               poi_plan_created_at := poi_plan_created_at itinerary_model;
               im_days := Some itinerary_days;
               itinerary_created_at := Some now;
               im_created_at := im_created_at itinerary_model;
               im_updated_at := now |} in
          (Ok {| ir_trip_id := trip_id;
                  ir_days := itinerary_days;
                  ir_created_at := now +:+ "Z" |},
           {| trips := trips db;
              macro_plans := macro_plans db;
              itineraries := <[trip_id := itinerary_model']> (itineraries db) |},
           w')
      end
    end
  end.

End Loop.

End RouteTimeOptimizer.

(* ===================================================================== *)
(** ** Effects: calls that change the world and may raise *)
(* ===================================================================== *)

Module Effects.

Definition M (W A : Type) : Type := W -> Result A * W.

Definition ret {W A} (a : A) : M W A := fun w => (Ok a, w).

Definition bind {W A B} (m : M W A) (k : A -> M W B) : M W B :=
  fun w =>
    match m w with
    | (Ok a, w') => k a w'
    | (Raise e, w') => (Raise e, w')
    end.

Definition raise {W A} (e : Exception) : M W A := fun w => (Raise e, w).

(** [try: m except Exception as e: h e]. *)
Definition try_except {W A} (m : M W A) (h : Exception -> M W A) : M W A :=
  fun w =>
    match m w with
    | (Ok a, w') => (Ok a, w')
    | (Raise e, w') => h e w'
    end.

#[global] Instance M_ret {W} : MRet (M W) := @ret W.
#[global] Instance M_bind {W} : MBind (M W) := fun A B k m => bind m k.

End Effects.
Import Effects.

(* ===================================================================== *)
(** ** POI providers (src.infrastructure.poi_providers) *)
(* ===================================================================== *)

Module PoiProviders.

(** The arguments of [search_pois]. *)
Record SearchQuery := {
  q_city : string;
  q_desired_categories : list string;
  q_budget : option string;
  q_limit : nat;
  q_center_location : option string;
}.

(** The [POIProvider] interface: a search reads and may change the world
    (database rows, the network) and may raise. *)
Record POIProvider (W : Type) := {
  search_pois : SearchQuery -> M W (list POICandidate);
}.
Arguments search_pois {W} _ _ _.

(** A provider that counts its calls, as the mocks of the test suite do:
    every call is appended to a log kept next to the world. *)
Definition logged {W T} (tag : T) (p : POIProvider W)
  : POIProvider (W * list (T * SearchQuery)) :=
  {| search_pois q := fun '(w, log) =>
       let '(r, w') := search_pois p q w in
       (r, (w', (log ++ [(tag, q)])%list)) |}.

(** Deduplication by [poi_id], first occurrence kept: the loop over the
    merged list with the set of ids already seen. *)
Fixpoint dedup_by_id (seen : gset UUID) (l : list POICandidate)
  : list POICandidate :=
  match l with
  | [] => []
  | c :: rest =>
      if decide (poi_id c ∈ seen) then dedup_by_id seen rest
      else c :: dedup_by_id ({[poi_id c]} ∪ seen) rest
  end.

Record CompositePOIProvider (W : Type) := {
  db_provider : POIProvider W;
  external_provider : POIProvider W;
}.
Arguments db_provider {W} _.
Arguments external_provider {W} _.

(** Modelled from the spec: [CompositePOIProvider.search_pois], whose
    source file (src/infrastructure/poi_providers.py) is not available.
    Section 4.1: query the local source with the full limit; with at least
    [limit] results return them unchanged; otherwise query the external
    source and merge, local results first, deduplicated by identity keeping
    the first occurrence, truncated to [limit].  An error of the external
    query is swallowed and the local results alone are returned, truncated
    to [limit] (section 8). *)
Definition composite_search_pois {W} (self : CompositePOIProvider W)
    (q : SearchQuery) : M W (list POICandidate) :=
  db_results ← search_pois (db_provider self) q;
  if bool_decide (q_limit q ≤ length db_results)%nat then ret db_results
  else
    try_except
      (external_results ← search_pois (external_provider self) q;
       ret (take (q_limit q) (dedup_by_id ∅ (db_results ++ external_results))))
      (fun _ => ret (take (q_limit q) db_results)).

Definition as_provider {W} (self : CompositePOIProvider W) : POIProvider W :=
  {| search_pois := composite_search_pois self |}.

End PoiProviders.
Import PoiProviders.

(* ===================================================================== *)
(** ** POI planner (src/application/poi_planner.py) *)
(* ===================================================================== *)

Module POIPlanner.

Definition BLOCK_TYPES_NEEDING_POIS : list BlockType :=
  [MEAL; ACTIVITY; NIGHTLIFE].

Definition CANDIDATES_PER_BLOCK : nat := 3.

Definition _block_needs_pois (bt : BlockType) : bool :=
  bool_decide (bt ∈ BLOCK_TYPES_NEEDING_POIS).

Section Planner.
Context {W : Type} (poi_provider : POIProvider W).

(** The inner loop over [enumerate(day.blocks)], from index [idx]. *)
Fixpoint plan_blocks (trip_spec : TripSpec) (dn : Z) (idx : nat)
    (blocks : list SkeletonBlock) : M W (list POIPlanBlock) :=
  match blocks with
  | [] => ret []
  | block :: rest =>
      if negb (_block_needs_pois (sb_block_type block)) then
        plan_blocks trip_spec dn (S idx) rest
      else
        candidates ← search_pois poi_provider
          {| q_city := city trip_spec;
             q_desired_categories := desired_categories block;
             q_budget := Some (budget trip_spec);
             q_limit := CANDIDATES_PER_BLOCK;
             q_center_location := hotel_location trip_spec |};
        let poi_block :=
          {| day_number := dn;
             block_index := Z.of_nat idx;
             block_theme := str_or (sb_theme block) "";
             block_type := sb_block_type block;
             candidates := candidates |} in
        poi_blocks ← plan_blocks trip_spec dn (S idx) rest;
        ret (poi_block :: poi_blocks)
  end.

(** The outer loop over [macro_plan.days]. *)
Fixpoint plan_days (trip_spec : TripSpec) (day_skeletons : list DaySkeleton)
  : M W (list POIPlanBlock) :=
  match day_skeletons with
  | [] => ret []
  | day :: rest =>
      here ← plan_blocks trip_spec (ds_day_number day) 0 (ds_blocks day);
      later ← plan_days trip_spec rest;
      ret (here ++ later)%list
  end.

(** Step 5 of [generate_poi_plan]: the POI plan of the trip's itinerary
    record is replaced, or the record is created. *)
Definition store_poi_plan (trip_id : UUID) (now : string)
    (poi_blocks : list POIPlanBlock) (db : Database) : Database :=
  let itinerary_model :=
    match itineraries db !! trip_id with
    | Some itinerary_model =>
        {| im_trip_id := im_trip_id itinerary_model;
           poi_plan := Some poi_blocks;
           poi_plan_created_at := Some now;
           im_days := im_days itinerary_model;
           itinerary_created_at := itinerary_created_at itinerary_model;
           im_created_at := im_created_at itinerary_model;
           im_updated_at := now |}
    | None =>
        {| im_trip_id := trip_id;
           poi_plan := Some poi_blocks;
           poi_plan_created_at := Some now;
           im_days := None;
           itinerary_created_at := None;
           im_created_at := now;
           im_updated_at := now |}
    end in
  {| trips := trips db;
     macro_plans := macro_plans db;
     itineraries := <[trip_id := itinerary_model]> (itineraries db) |}.

Definition generate_poi_plan (trip_id : UUID) (now : string) (db : Database)
  : M W (POIPlanResponse * Database) :=
  match trips db !! trip_id with
  | None => raise (ValueError "Trip not found")
  | Some trip_spec =>
    match macro_plans db !! trip_id with
    | None => raise (ValueError "No macro plan found. Generate macro plan first.")
    | Some macro_plan =>
        poi_blocks ← plan_days trip_spec (days macro_plan);
        ret ({| ppr_trip_id := trip_id;
                ppr_blocks := poi_blocks;
                ppr_created_at := now +:+ "Z" |},
             store_poi_plan trip_id now poi_blocks db)
    end
  end.

End Planner.

End POIPlanner.

(* ===================================================================== *)
(** ** Travel-time provider factory (src.infrastructure.travel_time) *)
(* ===================================================================== *)

Module TravelTimeFactory.

(** The fields of [Settings] (src/config.py) the factory reads. *)
Record Settings := {
  travel_time_provider : string;
  google_maps_api_key : option string;
  google_routes_base_url : string;
  google_routes_timeout_seconds : Z;
}.

Inductive Provider :=
| GoogleMapsTravelTimeProvider
    (api_key base_url : string) (timeout_seconds : Z) (default_mode : string)
| SimpleHeuristicTravelTimeProvider.

(** [str.lower] on ASCII text. *)
Definition lower_ascii (c : ascii) : ascii :=
  let n := N_of_ascii c in
  if ((65 <=? n) && (n <=? 90))%N then ascii_of_N (n + 32) else c.

Fixpoint lower (s : string) : string :=
  match s with
  | EmptyString => EmptyString
  | String c rest => String (lower_ascii c) (lower rest)
  end.

(** Truthiness of an optional string. *)
Definition str_truthy (x : option string) : bool :=
  match x with
  | Some s => negb (bool_decide (s = ""))
  | None => false
  end.

(** The constructor of the network-based provider: it fails fast without
    a credential (tests/test_travel_time_factory.py,
    [test_init_fails_without_key], [test_init_fails_with_empty_key]). *)
Definition GoogleMapsTravelTimeProvider_init (api_key : option string)
    (base_url : string) (timeout_seconds : Z) : Result Provider :=
  match api_key with
  | Some k =>
      if bool_decide (k = "") then Raise (ValueError "API key is required")
      else Ok (GoogleMapsTravelTimeProvider k base_url timeout_seconds "DRIVE")
  | None => Raise (ValueError "API key is required")
  end.

(** Modelled from the spec: [get_travel_time_provider], whose source file
    (src/infrastructure/travel_time.py) is not available.  Section 4.2:
    the configuration string is compared case-insensitively; "google_maps"
    with a non-empty credential gives the primary provider, every other
    combination the heuristic one. *)
Definition get_travel_time_provider (settings : Settings) : Result Provider :=
  if bool_decide (lower (travel_time_provider settings) = "google_maps")
     && str_truthy (google_maps_api_key settings)
  then GoogleMapsTravelTimeProvider_init
         (google_maps_api_key settings)
         (google_routes_base_url settings)
         (google_routes_timeout_seconds settings)
  else Ok SimpleHeuristicTravelTimeProvider.

Definition is_google (p : Provider) : bool :=
  match p with
  | GoogleMapsTravelTimeProvider _ _ _ _ => true
  | SimpleHeuristicTravelTimeProvider => false
  end.

End TravelTimeFactory.

(* ===================================================================== *)
(** ** Vocabulary of the statements, and sample data *)
(* ===================================================================== *)

Import RouteTimeOptimizer.

Definition is_rest_or_travel (bt : BlockType) : Prop := bt = REST \/ bt = TRAVEL.

Definition matches (dn idx : Z) (pb : POIPlanBlock) : Prop :=
  day_number pb = dn /\ block_index pb = idx.

(** [sel] is the first candidate of the first POI plan block of [plan]
    keyed [(dn, idx)], and nothing when there is no such block or it has no
    candidate. *)
Definition first_candidate_of (dn idx : Z) (plan : list POIPlanBlock)
    (sel : option POICandidate) : Prop :=
  (exists pre pb post, plan = pre ++ pb :: post /\
     Forall (fun x => ~ matches dn idx x) pre /\ matches dn idx pb /\
     sel = head (candidates pb))
  \/ (Forall (fun x => ~ matches dn idx x) plan /\ sel = None).

(** The travel figures recorded on an itinerary block. *)
Definition travel_fields (ib : ItineraryBlock)
  : Z * option Z * option string :=
  (travel_time_from_prev ib, travel_distance_meters ib, travel_polyline ib).

Definition result_fields (r : TravelTimeResult)
  : Z * option Z * option string :=
  (duration_minutes r, distance_meters r, polyline r).

(** A travel-time provider computed from the two locations alone, as the
    heuristic estimator is. *)
Definition pure_provider {W} (h : TravelLocation -> TravelLocation -> TravelTimeResult)
  : TravelTimeProvider W :=
  {| estimate_travel origin destination w := (h origin destination, w) |}.

(** The database [db] with the stored itinerary days of [trip_id]
    overwritten by [old]. *)
Definition with_stored_days (trip_id : UUID) (old : option (list ItineraryDay))
    (db : Database) : Database :=
  {| trips := trips db;
     macro_plans := macro_plans db;
     itineraries :=
       alter (fun im =>
                {| im_trip_id := im_trip_id im;
                   poi_plan := poi_plan im;
                   poi_plan_created_at := poi_plan_created_at im;
                   im_days := old;
                   itinerary_created_at := itinerary_created_at im;
                   im_created_at := im_created_at im;
                   im_updated_at := im_updated_at im |})
             trip_id (itineraries db) |}.

(** The itinerary days stored for [trip_id]. *)
Definition stored_days (trip_id : UUID) (db : Database)
  : option (list ItineraryDay) :=
  itineraries db !! trip_id ≫= im_days.

(** Which source a logged call went to. *)
Inductive Source := DB | EXTERNAL.

#[global] Instance Source_eq_dec : EqDecision Source.
Proof. solve_decision. Defined.

(** The composite selector over call-counting sources. *)
Definition logged_composite {W} (c : CompositePOIProvider W)
  : CompositePOIProvider (W * list (Source * SearchQuery)) :=
  {| db_provider := logged DB (db_provider c);
     external_provider := logged EXTERNAL (external_provider c) |}.

(** The number of calls to [src] recorded in a log. *)
Definition call_count (src : Source) (log : list (Source * SearchQuery)) : nat :=
  length (filter (fun e => e.1 = src) log).


(** What the external source contributes to a search whose local results
    are [l], in the world [w1] the local query left: its results when it is
    queried and answers, nothing when it is not queried or fails. *)
Definition external_results {W} (c : CompositePOIProvider W) (q : SearchQuery)
    (l : list POICandidate) (w1 : W) : list POICandidate :=
  if bool_decide (q_limit q ≤ length l)%nat then []
  else match search_pois (external_provider c) q w1 with
       | (Ok e, _) => e
       | (Raise _, _) => []
       end.

(** A source that always answers [l], and one that always fails. *)
Definition returning {W} (l : list POICandidate) : POIProvider W :=
  {| search_pois _ := ret l |}.

Definition failing {W} (e : Exception) : POIProvider W :=
  {| search_pois _ := raise e |}.

(** The skeleton blocks of a macro plan with their day number and index. *)
Definition indexed_blocks (day : DaySkeleton) : list (Z * nat * SkeletonBlock) :=
  imap (fun i b => (ds_day_number day, i, b)) (ds_blocks day).

Definition is_venue_type (bt : BlockType) : Prop :=
  bt = MEAL \/ bt = ACTIVITY \/ bt = NIGHTLIFE.

#[global] Instance is_venue_type_dec bt : Decision (is_venue_type bt).
Proof. unfold is_venue_type. apply _. Defined.

Definition is_venue_entry (x : Z * nat * SkeletonBlock) : Prop :=
  is_venue_type (sb_block_type x.2).

#[global] Instance is_venue_entry_dec x : Decision (is_venue_entry x).
Proof. unfold is_venue_entry. apply _. Defined.

(** The blocks that need a venue, in skeleton order. *)
Definition venue_blocks (mp : MacroPlan) : list (Z * nat * SkeletonBlock) :=
  filter is_venue_entry (days mp ≫= indexed_blocks).

(** The query the POI planner is expected to make for a block. *)
Definition expected_query (trip_spec : TripSpec) (b : SkeletonBlock) : SearchQuery :=
  {| q_city := city trip_spec;
     q_desired_categories := desired_categories b;
     q_budget := Some (budget trip_spec);
     q_limit := 3;
     q_center_location := hotel_location trip_spec |}.

(** What identifies a POI plan block, and what it is expected to be for
    a skeleton block with its day number and index. *)
Definition block_key (pb : POIPlanBlock) : Z * Z * BlockType * string :=
  (day_number pb, block_index pb, block_type pb, block_theme pb).

Definition expected_key (x : Z * nat * SkeletonBlock) : Z * Z * BlockType * string :=
  (x.1.1, Z.of_nat x.1.2, sb_block_type x.2, str_or (sb_theme x.2) "").

(** Case-insensitive equality of ASCII strings. *)
Definition eq_ignore_case (s t : string) : Prop :=
  TravelTimeFactory.lower s = TravelTimeFactory.lower t.

Module Sample.

Definition cafe : POICandidate :=
  {| poi_id := 1%N; name := "Cafe Test"; category := "cafe"; tags := ["cafe"];
     rating := Some (45 # 10)%Q; location := "123 Test St, Paris";
     lat := Some (488566 # 10000)%Q; lon := Some (23522 # 10000)%Q;
     rank_score := (18 # 1)%Q |}.

Definition bistro : POICandidate :=
  {| poi_id := 2%N; name := "Breakfast Spot"; category := "cafe"; tags := ["cafe"];
     rating := Some (47 # 10)%Q; location := "456 Breakfast Ave, Paris";
     lat := Some (488584 # 10000)%Q; lon := Some (22945 # 10000)%Q;
     rank_score := (15 # 1)%Q |}.

Definition museum : POICandidate :=
  {| poi_id := 3%N; name := "Museum"; category := "museum"; tags := ["art"];
     rating := None; location := "Rue de Rivoli, Paris";
     lat := Some (488606 # 10000)%Q; lon := Some (23376 # 10000)%Q;
     rank_score := (12 # 1)%Q |}.

Definition block (bt : BlockType) (theme : option string) : SkeletonBlock :=
  {| sb_block_type := bt; sb_start_time := "09:00"; sb_end_time := "10:00";
     sb_theme := theme; desired_categories := ["cafe"] |}.

(** A day with one meal block. *)
Definition day1 : DaySkeleton :=
  {| ds_day_number := 1; ds_date := "2024-06-15"; ds_theme := "Arrival";
     ds_blocks := [block MEAL (Some "Breakfast")] |}.

(** A day with a meal, a rest, a travel and an activity block. *)
Definition day2 : DaySkeleton :=
  {| ds_day_number := 2; ds_date := "2024-06-16"; ds_theme := "Museums";
     ds_blocks := [block MEAL None; block REST None; block TRAVEL (Some "");
                   block ACTIVITY (Some "Art")] |}.

Definition plan : list POIPlanBlock :=
  [ {| day_number := 1; block_index := 0; block_theme := "Breakfast";
       block_type := MEAL; candidates := [cafe; bistro] |};
    {| day_number := 2; block_index := 0; block_theme := "";
       block_type := MEAL; candidates := [bistro] |};
    {| day_number := 2; block_index := 3; block_theme := "Art";
       block_type := ACTIVITY; candidates := [museum; cafe] |} ].

Definition trip : TripSpec :=
  {| city := "Paris"; budget := "medium"; hotel_location := Some "Le Marais" |}.

Definition model : ItineraryModel :=
  {| im_trip_id := 7%N; poi_plan := Some plan; poi_plan_created_at := Some "t0";
     im_days := None; itinerary_created_at := None;
     im_created_at := "t0"; im_updated_at := "t0" |}.

Definition db : Database :=
  {| trips := {[ 7%N := trip ]};
     macro_plans := {[ 7%N := {| days := [day1; day2] |} ]};
     itineraries := {[ 7%N := model ]} |}.

(** A trip of one day with a single meal block. *)
Definition one_block_db : Database :=
  {| trips := {[ 8%N := trip ]};
     macro_plans := {[ 8%N := {| days := [day1] |} ]};
     itineraries := {[ 8%N := model ]} |}.

(** The cafe under another name: same identity, as an external source
    would report a venue the local store already has. *)
Definition cafe_external : POICandidate :=
  {| poi_id := 1%N; name := "Cafe from External"; category := "cafe"; tags := [];
     rating := Some (45 # 10)%Q; location := "Paris";
     lat := Some (488566 # 10000)%Q; lon := Some (23522 # 10000)%Q;
     rank_score := (15 # 1)%Q |}.

Definition query (limit : nat) : SearchQuery :=
  {| q_city := "Paris"; q_desired_categories := ["cafe"];
     q_budget := Some "medium"; q_limit := limit; q_center_location := None |}.

(** An estimator that answers a quarter of an hour for every leg. *)
Definition quarter_hour : TravelLocation -> TravelLocation -> TravelTimeResult :=
  fun _ _ => {| duration_minutes := 15; distance_meters := None; polyline := None |}.

#[global] Instance provider : TravelTimeProvider unit := pure_provider quarter_hour.

End Sample.

(* ===================================================================== *)
(** ** Reading the stored plans back *)
(* ===================================================================== *)

Module StoredPlans.

(** [RouteTimeOptimizer.get_itinerary] (route_optimizer.py): nothing
    without a record or with no (or an empty list of) stored days; [now] is
    only used when the record has no creation time. *)
Definition get_itinerary (trip_id : UUID) (now : string) (db : Database)
  : option ItineraryResponse :=
  match itineraries db !! trip_id with
  | None => None
  | Some itinerary_model =>
      if negb (list_truthy (im_days itinerary_model)) then None
      else
        Some {| ir_trip_id := trip_id;
                ir_days := default [] (im_days itinerary_model);
                ir_created_at :=
                  match itinerary_created_at itinerary_model with
                  | Some t => t +:+ "Z"
                  | None => now +:+ "Z"
                  end |}
  end.

(** [POIPlanner.get_poi_plan] (poi_planner.py). *)
Definition get_poi_plan (trip_id : UUID) (now : string) (db : Database)
  : option POIPlanResponse :=
  match itineraries db !! trip_id with
  | None => None
  | Some itinerary_model =>
      if negb (list_truthy (poi_plan itinerary_model)) then None
      else
        Some {| ppr_trip_id := trip_id;
                ppr_blocks := default [] (poi_plan itinerary_model);
                ppr_created_at :=
                  match poi_plan_created_at itinerary_model with
                  | Some t => t +:+ "Z"
                  | None => now +:+ "Z"
                  end |}
  end.

End StoredPlans.
Import StoredPlans.

(** A travel-time provider that counts its calls next to the world. *)
Definition counted {W} (p : TravelTimeProvider W) : TravelTimeProvider (W * nat) :=
  {| estimate_travel origin destination '(w, n) :=
       let '(r, w') := estimate_travel origin destination w in (r, (w', S n)) |}.

(** A selector whose answer depends on the query alone. *)
Definition answering {W} (f : SearchQuery -> list POICandidate) : POIProvider W :=
  {| search_pois q := ret (f q) |}.

(** The POI plan block the planner builds for a skeleton block, given the
    candidates found for it. *)
Definition plan_block_of (x : Z * nat * SkeletonBlock) (cs : list POICandidate)
  : POIPlanBlock :=
  {| day_number := x.1.1;
     block_index := Z.of_nat x.1.2;
     block_theme := str_or (sb_theme x.2) "";
     block_type := sb_block_type x.2;
     candidates := cs |}.

(** The prerequisites of itinerary generation: the trip, its macro plan
    and a non-empty POI plan are stored. *)
Definition itinerary_prerequisites (trip_id : UUID) (db : Database) : Prop :=
  is_Some (trips db !! trip_id) /\
  is_Some (macro_plans db !! trip_id) /\
  exists itinerary_model pb pbs,
    itineraries db !! trip_id = Some itinerary_model /\
    poi_plan itinerary_model = Some (pb :: pbs).

(** What a skeleton day and an itinerary day, and their blocks, share. *)
Definition skeleton_day_header (d : DaySkeleton) : Z * string * string :=
  (ds_day_number d, ds_date d, ds_theme d).

Definition itinerary_day_header (d : ItineraryDay) : Z * string * string :=
  (id_day_number d, id_date d, id_theme d).

Definition skeleton_block_header (b : SkeletonBlock) : BlockType * string * string :=
  (sb_block_type b, sb_start_time b, sb_end_time b).

Definition itinerary_block_header (b : ItineraryBlock) : BlockType * string * string :=
  (ib_block_type b, start_time b, end_time b).

Module Sample2.

(** The sample trip with a POI plan whose blocks found no candidate. *)
Definition bare_plan : list POIPlanBlock :=
  [ {| day_number := 1; block_index := 0; block_theme := "Breakfast";
       block_type := MEAL; candidates := [] |};
    {| day_number := 2; block_index := 3; block_theme := "Art";
       block_type := ACTIVITY; candidates := [] |} ].

Definition bare_db : Database :=
  {| trips := {[ 7%N := Sample.trip ]};
     macro_plans := {[ 7%N := {| days := [Sample.day1; Sample.day2] |} ]};
     itineraries :=
       {[ 7%N := {| im_trip_id := 7%N; poi_plan := Some bare_plan;
                    poi_plan_created_at := Some "t0"; im_days := None;
                    itinerary_created_at := None;
                    im_created_at := "t0"; im_updated_at := "t0" |} ]} |}.

Definition macro_plan : MacroPlan := {| days := [Sample.day1; Sample.day2] |}.

(** A trip whose only day holds a rest and a travel block. *)
Definition idle_day : DaySkeleton :=
  {| ds_day_number := 1; ds_date := "2024-06-15"; ds_theme := "Rest";
     ds_blocks := [Sample.block REST None; Sample.block TRAVEL None] |}.

Definition idle_db : Database :=
  {| trips := {[ 9%N := Sample.trip ]};
     macro_plans := {[ 9%N := {| days := [idle_day] |} ]};
     itineraries := ∅ |}.

(** The sample trip with an itinerary already stored. *)
Definition old_day : ItineraryDay :=
  {| id_day_number := 1; id_date := "2024-06-15"; id_theme := "Old"; id_blocks := [] |}.

Definition planned_db : Database :=
  {| trips := {[ 7%N := Sample.trip ]};
     macro_plans := {[ 7%N := macro_plan ]};
     itineraries :=
       {[ 7%N := {| im_trip_id := 7%N; poi_plan := Some Sample.plan;
                    poi_plan_created_at := Some "t0"; im_days := Some [old_day];
                    itinerary_created_at := Some "t0";
                    im_created_at := "t0"; im_updated_at := "t0" |} ]} |}.

(** A selector that answers by the first desired category. *)
Definition by_category (q : SearchQuery) : list POICandidate :=
  match q_desired_categories q with
  | "cafe" :: _ => [Sample.cafe; Sample.bistro]
  | _ => []
  end.

End Sample2.

(* ===================================================================== *)
(** ** Chat response cache (src/infrastructure/cache.py) *)
(* ===================================================================== *)

Module ChatCache.

(** Instants and [expires_at] are microseconds since the epoch, the
    resolution of [datetime]; a time-to-live is a number of seconds. *)
Record CacheEntry (V : Type) := {
  value : V;
  expires_at : Z;
}.
Arguments value {V} _.
Arguments expires_at {V} _.

(** The range of [datetime]: from 0001-01-01T00:00:00 to
    9999-12-31T23:59:59.999999. *)
Definition datetime_min : Z := -62135596800000000.
Definition datetime_max : Z := 253402300799999999.

(** [timedelta(seconds=s)] in microseconds.  A [timedelta] holds at most
    999999999 days either way ([s // 86400] after normalisation); beyond
    that the constructor raises [OverflowError], here [None]. *)
Definition timedelta_seconds (s : Z) : option Z :=
  if bool_decide (-999999999 <= s / 86400 <= 999999999) then Some (s * 1000000)
  else None.

(** [t + d] on a [datetime]: [OverflowError], here [None], when the sum
    leaves the range of [datetime]. *)
Definition datetime_add (t d : Z) : option Z :=
  if bool_decide (datetime_min <= t + d <= datetime_max) then Some (t + d)
  else None.

(** [CacheEntry.__init__], with [now] the clock at construction; [None]
    when it raises [OverflowError]. *)
Definition new_entry {V} (now : Z) (v : V) (ttl_seconds : Z) : option (CacheEntry V) :=
  d ← timedelta_seconds ttl_seconds;
  e ← datetime_add now d;
  Some {| value := v; expires_at := e |}.

(** How a call of [set] ends. *)
Inductive SetOutcome := Stored | OverflowError.

Definition is_expired {V} (now : Z) (entry : CacheEntry V) : bool :=
  bool_decide (expires_at entry < now).

(** The methods of [InMemoryChatCache], over its [_cache] dictionary.
    [get]: the value found, and the dictionary after the call (an expired
    entry is deleted on the way). *)
Definition get {V} (now : Z) (key : string) (cache : gmap string (CacheEntry V))
  : option V * gmap string (CacheEntry V) :=
  match cache !! key with
  | None => (None, cache)
  | Some entry =>
      if is_expired now entry then (None, delete key cache)
      else (Some (value entry), cache)
  end.

(** [set]: the entry is built first, so a time-to-live that overflows
    leaves the dictionary as it was. *)
Definition set {V} (now : Z) (key : string) (v : V) (ttl_seconds : Z)
    (cache : gmap string (CacheEntry V)) : SetOutcome * gmap string (CacheEntry V) :=
  match new_entry now v ttl_seconds with
  | Some entry => (Stored, <[key := entry]> cache)
  | None => (OverflowError, cache)
  end.

Definition clear {V} (cache : gmap string (CacheEntry V)) : gmap string (CacheEntry V) := ∅.

(** [cleanup_expired].  Each entry is tested against its own reading of
    the clock, [clock key]; the keys found expired are then deleted one by
    one and counted. *)
Definition expired_keys {V} (clock : string -> Z) (cache : gmap string (CacheEntry V))
  : list string :=
  (map_to_list (filter (fun kv => is_expired (clock kv.1) kv.2 = true) cache)).*1.

Definition cleanup_expired {V} (clock : string -> Z) (cache : gmap string (CacheEntry V))
  : nat * gmap string (CacheEntry V) :=
  let keys := expired_keys clock cache in
  (length keys, foldr delete cache keys).

(** [str.isspace] and [str.strip] on ASCII text. *)
Definition is_space (c : ascii) : bool :=
  let n := N_of_ascii c in
  ((9 <=? n) && (n <=? 13) || (28 <=? n) && (n <=? 32))%N.

Fixpoint lstrip (s : string) : string :=
  match s with
  | EmptyString => EmptyString
  | String c rest => if is_space c then lstrip rest else s
  end.

Fixpoint rstrip (s : string) : string :=
  match s with
  | EmptyString => EmptyString
  | String c rest =>
      match rstrip rest with
      | EmptyString => if is_space c then EmptyString else String c EmptyString
      | rest' => String c rest'
      end
  end.

Definition strip (s : string) : string := rstrip (lstrip s).

(** [ChatCache.normalize_message]: [message.lower().strip()]. *)
Definition normalize_message (message : string) : string :=
  strip (TravelTimeFactory.lower message).

(** [ChatCache.generate_cache_key]; [md5_hex] stands for
    [hashlib.md5(s.encode()).hexdigest()]. *)
Definition generate_cache_key (md5_hex : string -> string)
    (trip_id message : string) : string :=
  "chat:" +:+ trip_id +:+ ":" +:+ md5_hex (normalize_message message).

(** Text made of ASCII characters, and of ASCII white space. *)
Definition is_ascii_text (s : string) : Prop :=
  Forall (fun c => (N_of_ascii c < 128)%N) (String.list_ascii_of_string s).

Definition is_blank (s : string) : Prop :=
  Forall (fun c => is_space c = true) (String.list_ascii_of_string s).

End ChatCache.

(* ===================================================================== *)
(** ** Day studio: applying changes (src/api/day_studio.py) *)
(* ===================================================================== *)

Module DayStudio.

Record DaySettingsDTO := {
  tempo : string;
  start_time : string;
  end_time : string;
  budget : string;
}.

(** The defaults of [DaySettingsDTO()]. *)
Definition default_settings : DaySettingsDTO :=
  {| tempo := "medium"; start_time := "08:00"; end_time := "18:00";
     budget := "medium" |}.

(** [DayChangeDataDTO]; the placement of an added place plays no part in
    what follows and is left out. *)
Record DayChangeDataDTO := {
  cd_tempo : option string;
  cd_start_time : option string;
  cd_end_time : option string;
  cd_budget : option string;
  cd_preset : option string;
  cd_place_id : option string;
  cd_from_place_id : option string;
  cd_to_place_id : option string;
  cd_text : option string;
}.

Record DayChangeDTO := {
  change_type : string;
  data : DayChangeDataDTO;
}.

(** A Python truth test on an optional string: the string when it is
    present and non-empty. *)
Definition truthy (x : option string) : option string :=
  match x with
  | Some s => if decide (s = "") then None else Some s
  | None => None
  end.

(** The body of the loop over [request.changes] in [apply_day_changes], on
    the pair [(new_settings, new_preset)]. *)
Definition apply_change (st : DaySettingsDTO * option string) (change : DayChangeDTO)
  : DaySettingsDTO * option string :=
  let '(new_settings, new_preset) := st in
  if decide (change_type change = "update_settings") then
    ({| tempo := default (tempo new_settings) (truthy (cd_tempo (data change)));
        start_time :=
          default (start_time new_settings) (truthy (cd_start_time (data change)));
        end_time :=
          default (end_time new_settings) (truthy (cd_end_time (data change)));
        budget := default (budget new_settings) (truthy (cd_budget (data change))) |},
     new_preset)
  else if decide (change_type change = "set_preset") then
    (new_settings, cd_preset (data change))
  else st.

Definition apply_changes (changes : list DayChangeDTO)
  : DaySettingsDTO * option string :=
  fold_left apply_change changes (default_settings, None).

(** The values the [update_settings] changes give to one setting, in
    order, and the presets the [set_preset] changes carry. *)
Definition setting_updates (field : DayChangeDataDTO -> option string)
    (changes : list DayChangeDTO) : list string :=
  omap (fun change =>
          if decide (change_type change = "update_settings")
          then truthy (field (data change)) else None) changes.

Definition preset_updates (changes : list DayChangeDTO) : list (option string) :=
  omap (fun change =>
          if decide (change_type change = "set_preset")
          then Some (cd_preset (data change)) else None) changes.

End DayStudio.

(* ===================================================================== *)
(** ** POI plan endpoint: error mapping (src/api/poi_plan.py) *)
(* ===================================================================== *)

Module PoiPlanApi.

(** Python's [sub in s] on strings. *)
Fixpoint contains (sub s : string) : bool :=
  if String.prefix sub s then true
  else match s with
       | EmptyString => false
       | String _ rest => contains sub rest
       end.

(** The status code [create_poi_plan] answers with, from the outcome of
    [generate_poi_plan]: 201 on success, and for a [ValueError] 404 when the
    lower-cased message mentions "not found" or "no macro plan", 500
    otherwise; any other exception is a 500. *)
Definition create_poi_plan_status {A} (outcome : Result A) : Z :=
  match outcome with
  | Ok _ => 201
  | Raise (ValueError error_msg) =>
      if contains "not found" (TravelTimeFactory.lower error_msg)
         || contains "no macro plan" (TravelTimeFactory.lower error_msg)
      then 404 else 500
  | Raise _ => 500
  end.

(** The messages of the two [ValueError]s of [generate_poi_plan]
    (poi_planner.py), for the trip id printed as [trip_id]. *)
Definition trip_not_found (trip_id : string) : string :=
  "Trip " +:+ trip_id +:+ " not found".

Definition no_macro_plan (trip_id : string) : string :=
  "No macro plan found for trip " +:+ trip_id +:+ ". Generate macro plan first.".

End PoiPlanApi.

(* ===================================================================== *)
(** ** Trip specifications (src/application/trip_spec.py) *)
(* ===================================================================== *)

Module TripSpecCollector.

(** Dates and times are kept in their ISO form; a meal window is the
    tuple of its times. *)
Record DailyRoutine := {
  wake_time : string;
  sleep_time : string;
  breakfast_window : list string;
  lunch_window : list string;
  dinner_window : list string;
}.

(** The routine part of an update: every field may be absent. *)
Record DailyRoutineUpdate := {
  u_wake_time : option string;
  u_sleep_time : option string;
  u_breakfast_window : option (list string);
  u_lunch_window : option (list string);
  u_dinner_window : option (list string);
}.

(** The columns of [TripModel] that [update_trip] reads and writes. *)
Record TripModel := {
  id : UUID;
  city : string;
  start_date : string;
  end_date : string;
  num_travelers : Z;
  pace : string;
  budget : string;
  interests : list string;
  daily_routine : DailyRoutine;
  hotel_location : option string;
  additional_preferences : gmap string string;
  created_at : string;
  updated_at : string;
}.

Record TripUpdateRequest := {
  r_city : option string;
  r_start_date : option string;
  r_end_date : option string;
  r_num_travelers : option Z;
  r_pace : option string;
  r_budget : option string;
  r_interests : option (list string);
  r_hotel_location : option string;
  r_additional_preferences : option (gmap string string);
  r_daily_routine : option DailyRoutineUpdate;
}.

Record TripResponse := {
  resp_id : UUID;
  resp_city : string;
  resp_start_date : string;
  resp_end_date : string;
  resp_num_travelers : Z;
  resp_pace : string;
  resp_budget : string;
  resp_interests : list string;
  resp_daily_routine : DailyRoutine;
  resp_hotel_location : option string;
  resp_additional_preferences : gmap string string;
  resp_created_at : string;
  resp_updated_at : string;
}.

Definition _trip_model_to_response (trip_model : TripModel) : TripResponse :=
  {| resp_id := id trip_model;
     resp_city := city trip_model;
     resp_start_date := start_date trip_model;
     resp_end_date := end_date trip_model;
     resp_num_travelers := num_travelers trip_model;
     resp_pace := pace trip_model;
     resp_budget := budget trip_model;
     resp_interests := interests trip_model;
     resp_daily_routine := daily_routine trip_model;
     resp_hotel_location := hotel_location trip_model;
     resp_additional_preferences := additional_preferences trip_model;
     resp_created_at := created_at trip_model +:+ "Z";
     resp_updated_at := updated_at trip_model +:+ "Z" |}.

(** [requested or current] on a time (a time is always truthy) and on a
    window (an empty tuple is falsy). *)
Definition time_or (requested : option string) (current : string) : string :=
  default current requested.

Definition window_or (requested : option (list string)) (current : list string)
  : list string :=
  match requested with
  | Some (t :: ts) => t :: ts
  | _ => current
  end.

Definition update_routine (u : DailyRoutineUpdate) (current_routine : DailyRoutine)
  : DailyRoutine :=
  {| wake_time := time_or (u_wake_time u) (wake_time current_routine);
     sleep_time := time_or (u_sleep_time u) (sleep_time current_routine);
     breakfast_window :=
       window_or (u_breakfast_window u) (breakfast_window current_routine);
     lunch_window := window_or (u_lunch_window u) (lunch_window current_routine);
     dinner_window := window_or (u_dinner_window u) (dinner_window current_routine) |}.

(** The field assignments of [update_trip] on the row found. *)
Definition apply_update (request : TripUpdateRequest) (now : string)
    (trip_model : TripModel) : TripModel :=
  {| id := id trip_model;
     city := default (city trip_model) (r_city request);
     start_date := default (start_date trip_model) (r_start_date request);
     end_date := default (end_date trip_model) (r_end_date request);
     num_travelers := default (num_travelers trip_model) (r_num_travelers request);
     pace := default (pace trip_model) (r_pace request);
     budget := default (budget trip_model) (r_budget request);
     interests := default (interests trip_model) (r_interests request);
     daily_routine :=
       match r_daily_routine request with
       | Some u => update_routine u (daily_routine trip_model)
       | None => daily_routine trip_model
       end;
     hotel_location :=
       match r_hotel_location request with
       | Some h => Some h
       | None => hotel_location trip_model
       end;
     additional_preferences :=
       default (additional_preferences trip_model) (r_additional_preferences request);
     created_at := created_at trip_model;
     updated_at := now |}.

Definition get_trip (trip_id : UUID) (store : gmap UUID TripModel)
  : option TripResponse :=
  _trip_model_to_response <$> store !! trip_id.

Definition update_trip (trip_id : UUID) (request : TripUpdateRequest) (now : string)
    (store : gmap UUID TripModel) : option TripResponse * gmap UUID TripModel :=
  match store !! trip_id with
  | None => (None, store)
  | Some trip_model =>
      let trip_model' := apply_update request now trip_model in
      (Some (_trip_model_to_response trip_model'), <[trip_id := trip_model']> store)
  end.

End TripSpecCollector.

Module Sample3.

(** A cache with one entry expiring at instant 100 and one at 500. *)
Definition cache : gmap string (ChatCache.CacheEntry string) :=
  {[ "chat:7:aa" := {| ChatCache.value := "hello"; ChatCache.expires_at := 100 |};
     "chat:7:bb" := {| ChatCache.value := "again"; ChatCache.expires_at := 500 |} ]}.

(** A stand-in digest: the text itself. *)
Definition plain_digest (s : string) : string := s.

End Sample3.

(* ===================================================================== *)
(** * Properties of the route & time optimizer *)
(* ===================================================================== *)

Lemma needs_poi_iff bt :
  _block_needs_poi bt = true <-> bt = MEAL \/ bt = ACTIVITY \/ bt = NIGHTLIFE.
Proof. destruct bt; cbv; intuition congruence. Qed.

Lemma needs_poi_false_iff bt :
  _block_needs_poi bt = false <-> is_rest_or_travel bt.
Proof. unfold is_rest_or_travel. destruct bt; cbv; intuition congruence. Qed.

(** The search loop returns the first block with the wanted key. *)
Lemma find_matching_block_Some dn idx plan pb :
  find_matching_block dn idx plan = Some pb <->
  exists pre post, plan = pre ++ pb :: post /\
    Forall (fun x => ~ matches dn idx x) pre /\ matches dn idx pb.
Proof.
  unfold matches. induction plan as [|x plan IH]; simpl.
  - split; [discriminate|]. intros (pre & post & E & _). by destruct pre.
  - destruct (Z.eqb_spec (day_number x) dn) as [Hd|Hd];
      [destruct (Z.eqb_spec (block_index x) idx) as [Hi|Hi]|]; simpl.
    + split.
      * intros [= ->]. exists [], plan. split; [done|]. split; [constructor|done].
      * intros (pre & post & E & Hpre & _). destruct pre as [|y pre].
        -- by simplify_eq/=.
        -- simplify_eq/=. apply Forall_cons in Hpre as [Hy _]. by destruct Hy.
    + rewrite IH. split.
      * intros (pre & post & -> & Hpre & Hpb).
        exists (x :: pre), post. split; [done|]. split; [|done].
        constructor; [tauto|done].
      * intros (pre & post & E & Hpre & Hpb). destruct pre as [|y pre].
        -- simplify_eq/=. intuition congruence.
        -- simplify_eq/=. apply Forall_cons in Hpre as [_ Hpre]. eauto.
    + rewrite IH. split.
      * intros (pre & post & -> & Hpre & Hpb).
        exists (x :: pre), post. split; [done|]. split; [|done].
        constructor; [tauto|done].
      * intros (pre & post & E & Hpre & Hpb). destruct pre as [|y pre].
        -- simplify_eq/=. intuition congruence.
        -- simplify_eq/=. apply Forall_cons in Hpre as [_ Hpre]. eauto.
Qed.

Lemma find_matching_block_None dn idx plan :
  find_matching_block dn idx plan = None <->
  Forall (fun x => ~ matches dn idx x) plan.
Proof.
  unfold matches. induction plan as [|x plan IH]; simpl.
  - split; auto.
  - rewrite Forall_cons, <- IH.
    destruct (Z.eqb_spec (day_number x) dn) as [Hd|Hd];
      [destruct (Z.eqb_spec (block_index x) idx) as [Hi|Hi]|]; simpl;
      intuition congruence.
Qed.

Lemma select_poi_for_block_spec dn idx plan :
  first_candidate_of dn idx plan (_select_poi_for_block dn idx plan).
Proof.
  unfold first_candidate_of, _select_poi_for_block.
  destruct (find_matching_block dn idx plan) as [pb|] eqn:E.
  - left. apply find_matching_block_Some in E as (pre & post & -> & Hpre & Hpb).
    exists pre, pb, post. split_and!; try done.
  - right. by apply find_matching_block_None in E.
Qed.

Section OptimizerFacts.
Context {W : Type} `{!TravelTimeProvider W}.
Implicit Types (plan : list POIPlanBlock) (w : W).
Implicit Types (prev : option POICandidate) (blocks : list SkeletonBlock).

Lemma process_block_type dn plan idx b prev w :
  ib_block_type (process_block dn plan idx b prev w).1.1 = sb_block_type b.
Proof.
  unfold process_block.
  repeat (case_match; simplify_eq/=); done.
Qed.

Lemma process_block_needs dn plan idx b prev w :
  _block_needs_poi (sb_block_type b) = true ->
  let ib := (process_block dn plan idx b prev w).1.1 in
  let sel := _select_poi_for_block dn (Z.of_nat idx) plan in
  poi ib = sel /\
  (process_block dn plan idx b prev w).1.2 = sel /\
  notes ib = None /\
  (prev = None -> sel = None ->
     travel_time_from_prev ib = 0 /\ travel_distance_meters ib = None /\
     travel_polyline ib = None /\ (process_block dn plan idx b prev w).2 = w) /\
  (is_Some prev \/ is_Some sel ->
     let r := estimate_travel (from_poi prev) (from_poi sel) w in
     travel_time_from_prev ib = duration_minutes r.1 /\
     travel_distance_meters ib = distance_meters r.1 /\
     travel_polyline ib = polyline r.1 /\
     (process_block dn plan idx b prev w).2 = r.2).
Proof.
  intros Hn. unfold process_block. rewrite Hn.
  apply needs_poi_iff in Hn.
  destruct (estimate_travel _ _ w) as [r w'] eqn:Er.
  destruct prev as [p|], (_select_poi_for_block dn (Z.of_nat idx) plan) as [s|];
    simpl; rewrite ?Er; simpl;
    (split_and!; [done|done|by destruct Hn as [->|[->| ->]]|..]);
    try (intros; simplify_eq; done);
    try (by intros [[? [=]]|[? [=]]]); by intros; split_and!.
Qed.

Lemma process_block_rest_or_travel dn plan idx b prev w :
  is_rest_or_travel (sb_block_type b) ->
  let ib := (process_block dn plan idx b prev w).1.1 in
  poi ib = None /\ travel_time_from_prev ib = 0 /\
  travel_distance_meters ib = None /\ travel_polyline ib = None /\
  (exists s, notes ib = Some s /\ s <> "") /\
  (process_block dn plan idx b prev w).1.2 = prev /\
  (process_block dn plan idx b prev w).2 = w.
Proof.
  intros Hr. pose proof Hr as Hn. apply needs_poi_false_iff in Hn.
  unfold process_block. rewrite Hn. simpl. split_and!; try done.
  destruct Hr as [-> | ->]; eexists; (split; [done|]);
    unfold str_or; repeat case_match; done.
Qed.

Lemma generate_blocks_app dn plan idx pre post prev w :
  generate_blocks dn plan idx (pre ++ post) prev w =
    let r1 := generate_blocks dn plan idx pre prev w in
    let r2 := generate_blocks dn plan (idx + length pre) post r1.1.2 r1.2 in
    (r1.1.1 ++ r2.1.1, r2.1.2, r2.2).
Proof.
  revert idx prev w. induction pre as [|b pre IH]; intros idx prev w; simpl.
  - rewrite Nat.add_0_r. by destruct generate_blocks as [[??]?].
  - destruct process_block as [[ib p'] w']. rewrite IH. simpl.
    destruct (generate_blocks dn plan (S idx) pre p' w') as [[??]?]. simpl.
    by rewrite Nat.add_succ_r.
Qed.

Lemma generate_blocks_length dn plan idx blocks prev w :
  length (generate_blocks dn plan idx blocks prev w).1.1 = length blocks.
Proof.
  revert idx prev w. induction blocks as [|b blocks IH]; intros; simpl; [done|].
  destruct process_block as [[ib p'] w'].
  specialize (IH (S idx) p' w').
  destruct generate_blocks as [[??]?]. simpl in *. by rewrite IH.
Qed.

(** The block at position [i] is the loop body run on skeleton block [i],
    from the cursor and the world left by the blocks before it. *)
Lemma generate_blocks_lookup dn plan blocks i b w :
  blocks !! i = Some b ->
  let before := generate_blocks dn plan 0 (take i blocks) None w in
  (generate_blocks dn plan 0 blocks None w).1.1 !! i =
    Some (process_block dn plan i b before.1.2 before.2).1.1.
Proof.
  intros Hb. simpl.
  rewrite <- (take_drop_middle blocks i b Hb) at 1.
  rewrite generate_blocks_app. simpl.
  assert (length (take i blocks) = i) as Hlen.
  { rewrite length_take. apply lookup_lt_Some in Hb. lia. }
  rewrite Hlen.
  destruct (generate_blocks dn plan 0 (take i blocks) None w)
    as [[o1 p1] w1] eqn:E1.
  assert (length o1 = i) as Ho1.
  { pose proof (generate_blocks_length dn plan 0 (take i blocks) None w) as HL.
    rewrite E1 in HL. simpl in HL. lia. }
  simpl. destruct process_block as [[ib p'] w'].
  destruct (generate_blocks dn plan (S i) _ p' w') as [[??]?]. simpl.
  rewrite lookup_app_r by lia. by rewrite Ho1, Nat.sub_diag.
Qed.



Lemma generate_days_lookup plan day_skeletons j day w :
  day_skeletons !! j = Some day ->
  (generate_days plan day_skeletons w).1 !! j =
    Some (generate_day plan day (generate_days plan (take j day_skeletons) w).2).1.
Proof.
  revert j w. induction day_skeletons as [|d ds IH]; intros j w Hj; [done|].
  simpl. destruct (generate_day plan d w) as [iday w1] eqn:Ed.
  destruct j as [|j]; simpl in *.
  - simplify_eq. destruct generate_days. simpl. by rewrite Ed.
  - rewrite Ed. specialize (IH j w1 Hj).
    destruct (generate_days plan ds w1). simpl in *. rewrite IH.
    by destruct (generate_days plan (take j ds) w1).
Qed.

(** Blocks that select no venue, from an empty cursor, leave the cursor
    empty and never consult the estimator. *)
Lemma generate_blocks_no_venue dn plan idx pre w :
  (forall k b, pre !! k = Some b -> _block_needs_poi (sb_block_type b) = true ->
     _select_poi_for_block dn (Z.of_nat (idx + k)) plan = None) ->
  (generate_blocks dn plan idx pre None w).1.2 = None /\
  (generate_blocks dn plan idx pre None w).2 = w.
Proof.
  revert idx. induction pre as [|b pre IH]; intros idx Hnone; [done|]. simpl.
  assert ((process_block dn plan idx b None w).1.2 = None /\
          (process_block dn plan idx b None w).2 = w) as [Hp Hw].
  { destruct (_block_needs_poi (sb_block_type b)) eqn:Hn.
    - destruct (process_block_needs dn plan idx b None w Hn)
        as (_ & Hc & _ & Hz & _).
      specialize (Hnone 0%nat b eq_refl Hn). rewrite Nat.add_0_r in Hnone.
      rewrite Hc, Hnone. split; [done|]. by apply Hz.
    - apply needs_poi_false_iff in Hn.
      by destruct (process_block_rest_or_travel dn plan idx b None w Hn)
        as (_ & _ & _ & _ & _ & ? & ?). }
  destruct process_block as [[ib p'] w']. simpl in *. subst.
  destruct (IH (S idx)) as [IH1 IH2].
  { intros k b' Hk Hn. specialize (Hnone (S k) b' Hk Hn).
    by rewrite Nat.add_succ_r in Hnone. }
  by destruct generate_blocks as [[??]?].
Qed.

Lemma generate_itinerary_Ok trip_id now db w resp db' w' :
  generate_itinerary trip_id now db w = (Ok resp, db', w') ->
  exists trip_spec macro_plan im pb pbs,
    trips db !! trip_id = Some trip_spec /\
    macro_plans db !! trip_id = Some macro_plan /\
    itineraries db !! trip_id = Some im /\
    poi_plan im = Some (pb :: pbs) /\
    ir_days resp = (generate_days (pb :: pbs) (days macro_plan) w).1 /\
    w' = (generate_days (pb :: pbs) (days macro_plan) w).2 /\
    ir_trip_id resp = trip_id /\
    trips db' = trips db /\ macro_plans db' = macro_plans db /\
    itineraries db' =
      <[trip_id := {| im_trip_id := im_trip_id im;
                      poi_plan := poi_plan im;
                      poi_plan_created_at := poi_plan_created_at im;
                      im_days := Some (ir_days resp);
                      itinerary_created_at := Some now;
                      im_created_at := im_created_at im;
                      im_updated_at := now |}]> (itineraries db).
Proof.
  unfold generate_itinerary. intros Hg.
  destruct (trips db !! trip_id) as [ts|]; [|done].
  destruct (macro_plans db !! trip_id) as [mp|]; [|done].
  destruct (itineraries db !! trip_id) as [im|]; [|done].
  destruct (poi_plan im) as [[|pb pbs]|] eqn:Ep; simpl in Hg; try done.
  destruct (generate_days (pb :: pbs) (days mp) w) as [ds w1] eqn:Ed.
  simplify_eq. exists ts, mp, im, pb, pbs. simpl. by rewrite Ep, Ed.
Qed.

End OptimizerFacts.

Section OptimizerClaims.
Context {W : Type} `{!TravelTimeProvider W}.

(** With its prerequisites stored, [generate_itinerary] returns an
    itinerary; its block [i] of day [j] is the loop body run on the
    skeleton block, from the cursor and world left by the blocks before. *)
Lemma generate_itinerary_block trip_id now db (w : W) ts mp im plan j day i b :
  trips db !! trip_id = Some ts ->
  macro_plans db !! trip_id = Some mp ->
  itineraries db !! trip_id = Some im ->
  poi_plan im = Some plan -> plan <> [] ->
  days mp !! j = Some day ->
  ds_blocks day !! i = Some b ->
  exists resp db' w' iday,
    generate_itinerary trip_id now db w = (Ok resp, db', w') /\
    ir_days resp !! j = Some iday /\
    let wj := (generate_days plan (take j (days mp)) w).2 in
    let before :=
      generate_blocks (ds_day_number day) plan 0 (take i (ds_blocks day)) None wj in
    id_blocks iday !! i =
      Some (process_block (ds_day_number day) plan i b before.1.2 before.2).1.1.
Proof.
  intros Ht Hm Hi Hp Hne Hj Hb.
  pose proof (generate_days_lookup plan (days mp) j day w Hj) as Hwj.
  unfold generate_itinerary. rewrite Ht, Hm, Hi, Hp.
  destruct plan as [|pb pbs]; [done|]. simpl.
  destruct (generate_days (pb :: pbs) (days mp) w) as [ds w1] eqn:Ed.
  eexists _, _, _, _. split; [done|]. simpl in *.
  split; [done|].
  pose proof (generate_blocks_lookup (ds_day_number day) (pb :: pbs)
                (ds_blocks day) i b
                (generate_days (pb :: pbs) (take j (days mp)) w).2 Hb) as HL.
  unfold generate_day.
  destruct (generate_blocks (ds_day_number day) (pb :: pbs) 0 (ds_blocks day) None _)
    as [[o p] w2]. done.
Qed.

(** C4. For every venue-needing block (meal, activity, nightlife) of a
    generated itinerary the chosen venue is [_select_poi_for_block] of the
    block's day number and index: the first candidate of the first POI plan
    block keyed by that day number and block index, and no venue when there
    is no such block or its candidate list is empty. *)
Theorem optimizer_selects_first_candidate
    trip_id now db (w : W) ts mp im plan j day i b :
  trips db !! trip_id = Some ts ->
  macro_plans db !! trip_id = Some mp ->
  itineraries db !! trip_id = Some im ->
  poi_plan im = Some plan -> plan <> [] ->
  days mp !! j = Some day ->
  ds_blocks day !! i = Some b ->
  _block_needs_poi (sb_block_type b) = true ->
  exists resp db' w' iday ib,
    generate_itinerary trip_id now db w = (Ok resp, db', w') /\
    ir_days resp !! j = Some iday /\ id_blocks iday !! i = Some ib /\
    ib_block_type ib = sb_block_type b /\
    poi ib = _select_poi_for_block (ds_day_number day) (Z.of_nat i) plan /\
    first_candidate_of (ds_day_number day) (Z.of_nat i) plan (poi ib).
Proof.
  intros Ht Hm Hi Hp Hne Hj Hb Hn.
  destruct (generate_itinerary_block trip_id now db w ts mp im plan j day i b)
    as (resp & db' & w' & iday & Hg & Hd & Hl); try done.
  simpl in Hl. eexists resp, db', w', iday, _.
  split_and!; try done.
  - apply process_block_type.
  - by apply process_block_needs.
  - match goal with
    | |- context [process_block ?dn ?pl ?i ?b ?p ?w] =>
        destruct (process_block_needs dn pl i b p w Hn) as (-> & _)
    end.
    apply select_poi_for_block_spec.
Qed.

End OptimizerClaims.

Lemma optimizer_selects_first_candidate_witness :
  exists resp db' w' iday ib,
    generate_itinerary 7%N "t1" Sample.db tt = (Ok resp, db', w') /\
    ir_days resp !! 1%nat = Some iday /\ id_blocks iday !! 3%nat = Some ib /\
    ib_block_type ib = ACTIVITY /\
    poi ib = _select_poi_for_block 2 3 Sample.plan /\
    first_candidate_of 2 3 Sample.plan (poi ib).
Proof.
  apply (optimizer_selects_first_candidate 7%N "t1" Sample.db tt
           Sample.trip {| days := [Sample.day1; Sample.day2] |} Sample.model
           Sample.plan 1 Sample.day2 3 (Sample.block ACTIVITY (Some "Art")));
    try reflexivity; discriminate.
Defined.

Section TravelFields.
Context {W : Type} `{!TravelTimeProvider W}.

(** C5 (amended). For a venue-needing block of a generated itinerary the
    travel figures are zero/absent when neither the cursor venue nor the
    chosen venue is present, and otherwise they are the estimator's figures
    for the leg from the cursor's location (the unset location when there is
    none) to the chosen venue's location.  When no earlier block of the day
    selected a venue the cursor is empty and the estimator is consulted in
    the world in which the day started. *)
Theorem venue_block_travel_fields
    trip_id now db (w : W) ts mp im plan j day i b :
  trips db !! trip_id = Some ts ->
  macro_plans db !! trip_id = Some mp ->
  itineraries db !! trip_id = Some im ->
  poi_plan im = Some plan -> plan <> [] ->
  days mp !! j = Some day ->
  ds_blocks day !! i = Some b ->
  _block_needs_poi (sb_block_type b) = true ->
  exists resp db' w' iday ib,
    generate_itinerary trip_id now db w = (Ok resp, db', w') /\
    ir_days resp !! j = Some iday /\ id_blocks iday !! i = Some ib /\
    let dn := ds_day_number day in
    let wj := (generate_days plan (take j (days mp)) w).2 in
    let before := generate_blocks dn plan 0 (take i (ds_blocks day)) None wj in
    let prev := before.1.2 in
    (prev = None -> poi ib = None -> travel_fields ib = (0, None, None)) /\
    (is_Some prev \/ is_Some (poi ib) ->
       travel_fields ib =
         result_fields (estimate_travel (from_poi prev) (from_poi (poi ib)) before.2).1) /\
    ((forall k b', (k < i)%nat -> ds_blocks day !! k = Some b' ->
        _block_needs_poi (sb_block_type b') = true ->
        _select_poi_for_block dn (Z.of_nat k) plan = None) ->
     prev = None /\ before.2 = wj).
Proof.
  intros Ht Hm Hi Hp Hne Hj Hb Hn.
  destruct (generate_itinerary_block trip_id now db w ts mp im plan j day i b)
    as (resp & db' & w' & iday & Hg & Hd & Hl); try done.
  simpl in Hl. eexists resp, db', w', iday, _.
  split_and!; try done. simpl. split_and!.
  - match goal with
    | |- context [process_block ?dn ?pl ?i ?b ?p ?w] =>
        destruct (process_block_needs dn pl i b p w Hn) as (Hs & _ & _ & Hz & _)
    end.
    intros Hprev Hsel. rewrite Hs in Hsel.
    destruct (Hz Hprev Hsel) as (? & ? & ? & _).
    unfold travel_fields. congruence.
  - match goal with
    | |- context [process_block ?dn ?pl ?i ?b ?p ?w] =>
        destruct (process_block_needs dn pl i b p w Hn) as (Hs & _ & _ & _ & Hr)
    end.
    intros Hsome. rewrite Hs in Hsome |- *.
    destruct (Hr Hsome) as (? & ? & ? & _).
    unfold travel_fields, result_fields. congruence.
  - intros Hnone. apply generate_blocks_no_venue.
    intros k b' Hk Hnb. apply lookup_take_Some in Hk as [Hk Hlt].
    by apply (Hnone k b').
Qed.


End TravelFields.

Lemma venue_block_travel_fields_witness :
  exists resp db' w' iday ib,
    generate_itinerary 7%N "t1" Sample.db tt = (Ok resp, db', w') /\
    ir_days resp !! 0%nat = Some iday /\ id_blocks iday !! 0%nat = Some ib /\
    let dn := ds_day_number Sample.day1 in
    let wj := (generate_days Sample.plan (take 0 [Sample.day1; Sample.day2]) tt).2 in
    let before :=
      generate_blocks dn Sample.plan 0 (take 0 (ds_blocks Sample.day1)) None wj in
    let prev := before.1.2 in
    (prev = None -> poi ib = None -> travel_fields ib = (0, None, None)) /\
    (is_Some prev \/ is_Some (poi ib) ->
       travel_fields ib =
         result_fields (estimate_travel (from_poi prev) (from_poi (poi ib)) before.2).1) /\
    ((forall k b', (k < 0)%nat -> ds_blocks Sample.day1 !! k = Some b' ->
        _block_needs_poi (sb_block_type b') = true ->
        _select_poi_for_block dn (Z.of_nat k) Sample.plan = None) ->
     prev = None /\ before.2 = wj).
Proof.
  apply (venue_block_travel_fields 7%N "t1" Sample.db tt
           Sample.trip {| days := [Sample.day1; Sample.day2] |} Sample.model
           Sample.plan 0 Sample.day1 0 (Sample.block MEAL (Some "Breakfast")));
    try reflexivity; discriminate.
Defined.

(** C5, as stated, fails: the single meal block of a one-block day has a
    venue and no previous venue, and its travel time is what the estimator
    answers for the leg from the unset location, here 15 minutes. *)
Lemma first_venue_travel_time_not_zero :
  ~ (forall (W : Type) (P : TravelTimeProvider W) trip_id now db (w : W)
            resp db' w' iday ib,
        generate_itinerary trip_id now db w = (Ok resp, db', w') ->
        ir_days resp = [iday] -> id_blocks iday = [ib] ->
        is_Some (poi ib) ->
        travel_time_from_prev ib = 0).
Proof.
  intros Hclaim.
  specialize (Hclaim unit Sample.provider 8%N "t1" Sample.one_block_db tt
                _ _ _ _ _ eq_refl eq_refl eq_refl).
  simpl in Hclaim. specialize (Hclaim (ex_intro _ _ eq_refl)). discriminate.
Qed.


(** The itinerary of the sample trip: the first venue of each day is
    reached from the unset location, and the activity after the rest and
    travel blocks is reached from the breakfast venue. *)
Example sample_itinerary_blocks :
  let '(r, _, _) := generate_itinerary 7%N "t1" Sample.db tt in
  match r with
  | Ok resp =>
      map (fun d => map (fun ib => (name <$> poi ib, travel_time_from_prev ib, notes ib))
                        (id_blocks d)) (ir_days resp)
  | Raise _ => []
  end =
  [ [ (Some "Cafe Test", 15, None) ];
    [ (Some "Breakfast Spot", 15, None);
      (None, 0, Some "Rest at hotel");
      (None, 0, Some "Travel time");
      (Some "Museum", 15, None) ] ].
Proof. reflexivity. Qed.

Section Idempotence.
Context {W : Type} (h : TravelLocation -> TravelLocation -> TravelTimeResult).

Lemma process_block_pure dn plan idx b prev (w w' : W) :
  (process_block (H:=pure_provider h) dn plan idx b prev w).1 =
    (process_block (H:=pure_provider h) dn plan idx b prev w').1 /\
  (process_block (H:=pure_provider h) dn plan idx b prev w).2 = w.
Proof.
  unfold process_block. simpl.
  repeat (case_match; simplify_eq/=); done.
Qed.

Lemma generate_blocks_pure dn plan idx blocks prev (w w' : W) :
  (generate_blocks (H:=pure_provider h) dn plan idx blocks prev w).1 =
    (generate_blocks (H:=pure_provider h) dn plan idx blocks prev w').1 /\
  (generate_blocks (H:=pure_provider h) dn plan idx blocks prev w).2 = w.
Proof.
  revert idx prev. induction blocks as [|b blocks IH]; intros idx prev; [done|].
  simpl.
  destruct (process_block_pure dn plan idx b prev w w') as [E1 E2].
  pose proof (proj2 (process_block_pure dn plan idx b prev w' w)) as E3.
  destruct (process_block (H:=pure_provider h) dn plan idx b prev w) as [[ib p] w1].
  destruct (process_block (H:=pure_provider h) dn plan idx b prev w') as [[ib' p'] w1'].
  simpl in *. simplify_eq.
  destruct (IH (S idx) p') as [I1 I2].
  pose proof (proj2 (IH (S idx) p')) as I3.
  destruct (generate_blocks (H:=pure_provider h) dn plan (S idx) blocks p' w) as [[??]?].
  destruct (generate_blocks (H:=pure_provider h) dn plan (S idx) blocks p' w') as [[??]?].
  simpl in *. by simplify_eq.
Qed.

Lemma generate_days_pure plan day_skeletons (w w' : W) :
  (generate_days (H:=pure_provider h) plan day_skeletons w).1 =
    (generate_days (H:=pure_provider h) plan day_skeletons w').1 /\
  (generate_days (H:=pure_provider h) plan day_skeletons w).2 = w.
Proof.
  induction day_skeletons as [|d ds IH]; [done|]. simpl. unfold generate_day.
  destruct (generate_blocks_pure (ds_day_number d) plan 0 (ds_blocks d) None w w')
    as [E1 E2].
  destruct (generate_blocks_pure (ds_day_number d) plan 0 (ds_blocks d) None w' w)
    as [_ E3].
  destruct (generate_blocks (H:=pure_provider h) (ds_day_number d) plan 0 (ds_blocks d) None w)
    as [[o p] w1].
  destruct (generate_blocks (H:=pure_provider h) (ds_day_number d) plan 0 (ds_blocks d) None w')
    as [[o' p'] w1'].
  simpl in *. simplify_eq. destruct IH as [I1 I2].
  destruct (generate_days (H:=pure_provider h) plan ds w) as [??].
  destruct (generate_days (H:=pure_provider h) plan ds w') as [??].
  simpl in *. by simplify_eq.
Qed.

(** The days of a generated itinerary depend on the macro plan and the POI
    plan only. *)
Lemma generate_itinerary_pure trip_id now now' db db' (w w' : W) resp db1 w1 :
  trips db' !! trip_id = trips db !! trip_id ->
  macro_plans db' !! trip_id = macro_plans db !! trip_id ->
  poi_plan <$> itineraries db' !! trip_id = poi_plan <$> itineraries db !! trip_id ->
  generate_itinerary (H:=pure_provider h) trip_id now db w = (Ok resp, db1, w1) ->
  w1 = w /\
  stored_days trip_id db1 = Some (ir_days resp) /\
  trips db1 = trips db /\ macro_plans db1 = macro_plans db /\
  poi_plan <$> itineraries db1 !! trip_id = poi_plan <$> itineraries db !! trip_id /\
  exists resp' db1',
    generate_itinerary (H:=pure_provider h) trip_id now' db' w' = (Ok resp', db1', w') /\
    ir_days resp' = ir_days resp /\
    stored_days trip_id db1' = Some (ir_days resp).
Proof.
  intros Ht Hm Hp Hg.
  apply generate_itinerary_Ok in Hg
    as (ts & mp & im & pb & pbs & Et & Em & Ei & Ep & Ed & Ew & _ & Et1 & Em1 & Ei1).
  destruct (generate_days_pure (pb :: pbs) (days mp) w w') as [D1 D2].
  split; [congruence|].
  unfold stored_days. rewrite Ei1, lookup_insert_eq. simpl.
  split_and!; try done.
  { by rewrite Ei. }
  unfold generate_itinerary. rewrite Ht, Hm, Et, Em.
  rewrite Ei in Hp. simpl in Hp.
  destruct (itineraries db' !! trip_id) as [im'|]; [|done].
  simpl in Hp. simplify_eq. rewrite Hp, Ep. simpl. rewrite Ed.
  pose proof (proj2 (generate_days_pure (pb :: pbs) (days mp) w' w)) as D3.
  destruct (generate_days (H:=pure_provider h) (pb :: pbs) (days mp) w') as [ds' w2] eqn:E'.
  simpl in *. subst w2. eexists _, _. split; [done|]. simpl.
  rewrite lookup_insert_eq. simpl. by rewrite D1.
Qed.

(** C6. With an estimator computed from the two locations alone,
    generating the itinerary again from the unchanged macro plan and POI
    plan gives the same days (venues and travel figures), and the stored
    days are replaced in full: whatever days were stored before, the
    itinerary record written is the same. *)
Theorem generate_itinerary_idempotent
    trip_id now now' db (w w' : W) resp db1 w1 :
  generate_itinerary (H:=pure_provider h) trip_id now db w = (Ok resp, db1, w1) ->
  stored_days trip_id db1 = Some (ir_days resp) /\
  (exists resp2 db2,
     generate_itinerary (H:=pure_provider h) trip_id now' db1 w' = (Ok resp2, db2, w') /\
     ir_days resp2 = ir_days resp /\
     stored_days trip_id db2 = Some (ir_days resp)) /\
  (forall old, exists resp0,
     generate_itinerary (H:=pure_provider h) trip_id now (with_stored_days trip_id old db) w =
       (Ok resp0, db1, w1) /\
     ir_days resp0 = ir_days resp).
Proof.
  intros Hg.
  destruct (generate_itinerary_pure trip_id now now' db db1 w w' resp db1 w1)
    as (Hw & Hs & Ht & Hm & Hp & Hagain); auto; try congruence.
  { apply generate_itinerary_Ok in Hg
      as (_ & _ & im & _ & _ & _ & _ & Ei & _ & _ & _ & _ & Et1 & Em1 & Ei1).
    by rewrite Et1. }
  { apply generate_itinerary_Ok in Hg
      as (_ & _ & im & _ & _ & _ & _ & Ei & _ & _ & _ & _ & Et1 & Em1 & Ei1).
    by rewrite Em1. }
  { apply generate_itinerary_Ok in Hg
      as (_ & _ & im & _ & _ & _ & _ & Ei & _ & _ & _ & _ & Et1 & Em1 & Ei1).
    by rewrite Ei1, lookup_insert_eq, Ei. }
  split; [done|]. split; [done|].
  intros old.
  apply generate_itinerary_Ok in Hg
    as (ts & mp & im & pb & pbs & Et & Em & Ei & Ep & Ed & Ew & Hid & Et1 & Em1 & Ei1).
  unfold generate_itinerary, with_stored_days. simpl.
  rewrite Et, Em, lookup_alter_eq, Ei. simpl. rewrite Ep. simpl.
  destruct (generate_days (H:=pure_provider h) (pb :: pbs) (days mp) w) as [ds w2] eqn:E'.
  simpl in *.
  exists {| ir_trip_id := trip_id; ir_days := ds; ir_created_at := now +:+ "Z" |}.
  split; [|by simpl].
  f_equal; [f_equal|congruence].
  destruct db1 as [t1 m1 i1]. simpl in *. subst. f_equal.
  rewrite Ep. apply map_eq. intros k.
  destruct (decide (k = ir_trip_id resp)) as [->|Hk].
  - by rewrite !lookup_insert_eq.
  - rewrite !lookup_insert_ne by done. by rewrite lookup_alter_ne.
Qed.

End Idempotence.

Lemma generate_itinerary_idempotent_witness :
  exists resp db1,
    generate_itinerary (H:=pure_provider Sample.quarter_hour) 7%N "t1" Sample.db tt =
      (Ok resp, db1, tt) /\
    stored_days 7%N db1 = Some (ir_days resp) /\
    (exists resp2 db2,
       generate_itinerary (H:=pure_provider Sample.quarter_hour) 7%N "t2" db1 tt =
         (Ok resp2, db2, tt) /\
       ir_days resp2 = ir_days resp /\
       stored_days 7%N db2 = Some (ir_days resp)) /\
    (forall old, exists resp0,
       generate_itinerary (H:=pure_provider Sample.quarter_hour) 7%N "t1"
         (with_stored_days 7%N old Sample.db) tt = (Ok resp0, db1, tt) /\
       ir_days resp0 = ir_days resp).
Proof.
  eexists _, _. split; [reflexivity|].
  apply (generate_itinerary_idempotent Sample.quarter_hour 7%N "t1" "t2"
           Sample.db tt tt).
  reflexivity.
Defined.

(* ===================================================================== *)
(** * Properties of the composite candidate selector *)
(* ===================================================================== *)

Section Dedup.
Implicit Types (seen : gset UUID) (l : list POICandidate) (c : POICandidate).

Lemma dedup_sublist seen l : dedup_by_id seen l `sublist_of` l.
Proof.
  revert seen. induction l as [|x l IH]; intros seen; simpl; [done|].
  case_decide; [by apply sublist_cons | by apply sublist_skip].
Qed.






Lemma dedup_length seen l : (length (dedup_by_id seen l) <= length l)%nat.
Proof. apply sublist_length, dedup_sublist. Qed.


End Dedup.

Section Composite.
Context {W : Type}.
Implicit Types (c : CompositePOIProvider W) (q : SearchQuery) (w : W).
Implicit Types (l : list POICandidate) (log : list (Source * SearchQuery)).

Lemma call_count_app src log log' :
  call_count src (log ++ log') = (call_count src log + call_count src log')%nat.
Proof. unfold call_count. by rewrite filter_app, length_app. Qed.

(** C1. When the local source returns at least [limit] candidates the
    composite selector returns exactly those, in that order, in the world
    the local query left; over call-counting sources its log gains the one
    local call, and the count of external calls does not move. *)
Theorem composite_uses_local_when_sufficient c q w log l w1 :
  search_pois (db_provider c) q w = (Ok l, w1) ->
  (q_limit q <= length l)%nat ->
  composite_search_pois c q w = (Ok l, w1) /\
  composite_search_pois (logged_composite c) q (w, log) =
    (Ok l, (w1, log ++ [(DB, q)])) /\
  call_count EXTERNAL (log ++ [(DB, q)]) = call_count EXTERNAL log.
Proof.
  intros Hdb Hlen. split_and!.
  - unfold composite_search_pois, mbind, M_bind, bind. rewrite Hdb.
    by rewrite bool_decide_eq_true_2.
  - unfold composite_search_pois, mbind, M_bind, bind. simpl. rewrite Hdb.
    by rewrite bool_decide_eq_true_2.
  - rewrite call_count_app.
    change (call_count EXTERNAL [(DB, q)]) with 0%nat. lia.
Qed.

(** C2. When the local source returns fewer than [limit] candidates and
    the external query raises, the composite selector raises nothing and
    returns exactly the local results, truncated to [limit] (which leaves
    them whole); the external source was called once. *)
Theorem composite_survives_external_failure c q w log l w1 e w2 :
  search_pois (db_provider c) q w = (Ok l, w1) ->
  (length l < q_limit q)%nat ->
  search_pois (external_provider c) q w1 = (Raise e, w2) ->
  composite_search_pois c q w = (Ok (take (q_limit q) l), w2) /\
  take (q_limit q) l = l /\
  composite_search_pois (logged_composite c) q (w, log) =
    (Ok l, (w2, log ++ [(DB, q); (EXTERNAL, q)])).
Proof.
  intros Hdb Hlen Hext.
  assert (take (q_limit q) l = l) as Htake by (apply take_ge; lia).
  split_and!; [|done|].
  - unfold composite_search_pois, mbind, M_bind, bind, try_except. rewrite Hdb.
    rewrite bool_decide_eq_false_2 by lia. by rewrite Hext.
  - unfold composite_search_pois, mbind, M_bind, bind, try_except. simpl.
    rewrite Hdb. rewrite bool_decide_eq_false_2 by lia. rewrite Hext. simpl.
    by rewrite Htake, <- app_assoc.
Qed.

End Composite.

Lemma composite_uses_local_when_sufficient_witness :
  let c : CompositePOIProvider unit :=
    {| db_provider := returning [Sample.cafe];
       external_provider := failing (UpstreamError "must not be called") |} in
  composite_search_pois c (Sample.query 1) tt = (Ok [Sample.cafe], tt) /\
  composite_search_pois (logged_composite c) (Sample.query 1) (tt, []) =
    (Ok [Sample.cafe], (tt, [] ++ [(DB, Sample.query 1)])) /\
  call_count EXTERNAL ([] ++ [(DB, Sample.query 1)]) = call_count EXTERNAL [].
Proof.
  apply (composite_uses_local_when_sufficient
           {| db_provider := returning [Sample.cafe];
              external_provider := failing (UpstreamError "must not be called") |}
           (Sample.query 1) tt [] [Sample.cafe] tt);
    [reflexivity | simpl; lia].
Defined.

Lemma composite_survives_external_failure_witness :
  let c : CompositePOIProvider unit :=
    {| db_provider := returning [Sample.cafe];
       external_provider := failing (UpstreamError "API error") |} in
  composite_search_pois c (Sample.query 5) tt =
    (Ok (take (q_limit (Sample.query 5)) [Sample.cafe]), tt) /\
  take (q_limit (Sample.query 5)) [Sample.cafe] = [Sample.cafe] /\
  composite_search_pois (logged_composite c) (Sample.query 5) (tt, []) =
    (Ok [Sample.cafe],
     (tt, [] ++ [(DB, Sample.query 5); (EXTERNAL, Sample.query 5)])).
Proof.
  apply (composite_survives_external_failure
           {| db_provider := returning [Sample.cafe];
              external_provider := failing (UpstreamError "API error") |}
           (Sample.query 5) tt [] [Sample.cafe] tt (UpstreamError "API error") tt);
    [reflexivity | simpl; lia | reflexivity].
Defined.

Section Merge.
Context {W : Type}.
Implicit Types (c : CompositePOIProvider W) (q : SearchQuery) (w : W).
Implicit Types (l : list POICandidate).


End Merge.


(** On an identity collision the local candidate is the one returned. *)
Example merge_keeps_local_on_collision :
  composite_search_pois
    {| db_provider := returning [Sample.cafe];
       external_provider := returning [Sample.cafe_external; Sample.bistro] |}
    (Sample.query 5) tt = (Ok [Sample.cafe; Sample.bistro], tt).
Proof. vm_compute. reflexivity. Qed.

(* ===================================================================== *)
(** * Properties of the POI planner *)
(* ===================================================================== *)

Import POIPlanner.

Lemma needs_pois_iff bt : _block_needs_pois bt = true <-> is_venue_type bt.
Proof. unfold is_venue_type. destruct bt; cbv; intuition congruence. Qed.

Section PlannerFacts.
Context {W : Type} (p : POIProvider W).
Hypothesis p_answers : forall q w, exists l w', search_pois p q w = (Ok l, w').

Lemma plan_blocks_spec trip dn idx blocks w (log : list (unit * SearchQuery)) :
  let vb := filter is_venue_entry (imap (fun i b => (dn, (idx + i)%nat, b)) blocks) in
  exists pbs w',
    plan_blocks (logged tt p) trip dn idx blocks (w, log) =
      (Ok pbs, (w', log ++ ((fun x => (tt, expected_query trip x.2)) <$> vb))) /\
    block_key <$> pbs = expected_key <$> vb.
Proof.
  revert idx w log. induction blocks as [|b blocks IH]; intros idx w log; simpl.
  - exists [], w. by rewrite app_nil_r.
  - assert (imap ((fun i b0 => (dn, (idx + i)%nat, b0)) ∘ S) blocks =
            imap (fun i b0 => (dn, (S idx + i)%nat, b0)) blocks) as Himap.
    { apply imap_ext. intros i x _. simpl. do 2 f_equal. lia. }
    rewrite Himap, Nat.add_0_r.
    destruct (_block_needs_pois (sb_block_type b)) eqn:Hn; simpl.
    + apply needs_pois_iff in Hn.
      rewrite filter_cons_True by done.
      destruct (p_answers (expected_query trip b) w) as (l & w1 & Hs).
      destruct (IH (S idx) w1 (log ++ [(tt, expected_query trip b)]))
        as (pbs & w' & Hrest & Hkeys).
      eexists (_ :: pbs), w'. split.
      * unfold mbind, M_bind, bind. simpl. unfold expected_query in Hs.
        unfold CANDIDATES_PER_BLOCK. rewrite Hs.
        unfold mbind, M_bind, bind in Hrest. unfold expected_query in Hrest.
        rewrite Hrest. simpl. by rewrite <- app_assoc.
      * rewrite !fmap_cons. by rewrite Hkeys.
    + assert (~ is_venue_type (sb_block_type b)) as Hv.
      { rewrite <- needs_pois_iff. congruence. }
      rewrite filter_cons_False by done. apply IH.
Qed.

Lemma plan_days_spec trip day_skeletons w (log : list (unit * SearchQuery)) :
  let vb := filter is_venue_entry (day_skeletons ≫= indexed_blocks) in
  exists pbs w',
    plan_days (logged tt p) trip day_skeletons (w, log) =
      (Ok pbs, (w', log ++ ((fun x => (tt, expected_query trip x.2)) <$> vb))) /\
    block_key <$> pbs = expected_key <$> vb.
Proof.
  revert w log. induction day_skeletons as [|d ds IH]; intros w log; simpl.
  - exists [], w. by rewrite app_nil_r.
  - destruct (plan_blocks_spec trip (ds_day_number d) 0 (ds_blocks d) w log)
      as (here & w1 & Hhere & Hk1).
    simpl in Hhere, Hk1.
    destruct (IH w1 (log ++ ((fun x => (tt, expected_query trip x.2)) <$>
                           filter is_venue_entry (indexed_blocks d))))
      as (later & w2 & Hlater & Hk2).
    exists (here ++ later), w2. rewrite filter_app, !fmap_app. split.
    + unfold mbind, M_bind, bind. unfold indexed_blocks in Hlater.
      rewrite Hhere. unfold mbind, M_bind, bind in Hlater. rewrite Hlater.
      simpl. by rewrite <- app_assoc.
    + by rewrite Hk1, Hk2.
Qed.

(** C7. POI-plan generation makes one POI plan block, in skeleton order,
    for each skeleton block of type meal, activity or nightlife and for no
    other block; the queries it sends to the selector, in order, ask for 3
    candidates with the block's desired categories, the trip's budget and
    the trip's hotel location as centre. *)
Theorem poi_plan_covers_venue_blocks trip_id now db w log trip mp :
  trips db !! trip_id = Some trip ->
  macro_plans db !! trip_id = Some mp ->
  exists resp db' w',
    generate_poi_plan (logged tt p) trip_id now db (w, log) =
      (Ok (resp, db'),
       (w', log ++ ((fun x => (tt, expected_query trip x.2)) <$> venue_blocks mp))) /\
    block_key <$> ppr_blocks resp = expected_key <$> venue_blocks mp /\
    Forall (fun pb => is_venue_type (block_type pb)) (ppr_blocks resp) /\
    itineraries db' !! trip_id ≫= poi_plan = Some (ppr_blocks resp).
Proof.
  intros Ht Hm.
  destruct (plan_days_spec trip (days mp) w log) as (pbs & w' & Hp & Hk).
  simpl in Hp, Hk. fold (venue_blocks mp) in Hp, Hk.
  eexists _, _, w'. split_and!.
  - unfold generate_poi_plan. rewrite Ht, Hm.
    unfold mbind, M_bind, bind. by rewrite Hp.
  - done.
  - simpl. apply Forall_forall. intros pb Hpb.
    apply (list_elem_of_fmap_2 block_key) in Hpb. rewrite Hk in Hpb.
    apply list_elem_of_fmap in Hpb as (x & Hx & Hin).
    apply list_elem_of_filter in Hin as [Hv _].
    unfold block_key, expected_key in Hx. injection Hx as _ _ Hty _.
    rewrite Hty. exact Hv.
  - simpl. unfold store_poi_plan. simpl. rewrite lookup_insert_eq.
    by destruct (itineraries db !! trip_id).
Qed.

End PlannerFacts.

Lemma poi_plan_covers_venue_blocks_witness :
  let p : POIProvider unit := returning [Sample.cafe; Sample.bistro] in
  let mp := {| days := [Sample.day1; Sample.day2] |} in
  exists resp db' w',
    generate_poi_plan (logged tt p) 7%N "t1" Sample.db (tt, []) =
      (Ok (resp, db'),
       (w', [] ++ ((fun x => (tt, expected_query Sample.trip x.2)) <$> venue_blocks mp))) /\
    block_key <$> ppr_blocks resp = expected_key <$> venue_blocks mp /\
    Forall (fun pb => is_venue_type (block_type pb)) (ppr_blocks resp) /\
    itineraries db' !! 7%N ≫= poi_plan = Some (ppr_blocks resp).
Proof.
  apply (poi_plan_covers_venue_blocks (returning [Sample.cafe; Sample.bistro])).
  - intros q w. exists [Sample.cafe; Sample.bistro], w. reflexivity.
  - reflexivity.
  - reflexivity.
Defined.

(** The POI plan of the sample trip: the rest and travel blocks of the
    second day are skipped, the block indices are those of the skeleton. *)
Example sample_poi_plan_keys :
  match (generate_poi_plan (returning [Sample.cafe]) 7%N "t1" Sample.db tt).1 with
  | Ok (resp, _) => block_key <$> ppr_blocks resp
  | Raise _ => []
  end =
  [ (1, 0, MEAL, "Breakfast"); (2, 0, MEAL, ""); (2, 3, ACTIVITY, "Art") ].
Proof. reflexivity. Qed.

(** The planner over the composite selector: the local store has two
    matching candidates, fewer than the three asked for, so the external
    source is called once and the block keeps the two local candidates. *)
Example sample_plan_over_composite :
  let selector : CompositePOIProvider unit :=
    {| db_provider := returning [Sample.cafe; Sample.bistro];
       external_provider := failing (UpstreamError "timeout") |} in
  let '(r, (_, log)) :=
    generate_poi_plan (as_provider (logged_composite selector))
      8%N "t1" Sample.one_block_db (tt, []) in
  (match r with
   | Ok (resp, _) => candidates <$> ppr_blocks resp
   | Raise _ => []
   end,
   call_count DB log, call_count EXTERNAL log)
  = ([[Sample.cafe; Sample.bistro]], 1%nat, 1%nat).
Proof. vm_compute. reflexivity. Qed.

(* ===================================================================== *)
(** * Properties of the travel-time provider factory *)
(* ===================================================================== *)

Import TravelTimeFactory.

Example ignore_case_accepts_mixed_case : eq_ignore_case "Google_MAPS" "google_maps".
Proof. reflexivity. Qed.

Example ignore_case_rejects_other_names : ~ eq_ignore_case "google-maps" "google_maps".
Proof. unfold eq_ignore_case. simpl. discriminate. Qed.

Lemma lower_google_maps : lower "google_maps" = "google_maps".
Proof. reflexivity. Qed.

(** C8. The factory never raises.  It returns the network-based provider
    exactly when the configured name equals "google_maps" up to case and
    the API key is present and non-empty, and the heuristic provider for
    every other configuration. *)
Theorem factory_selects_provider (settings : Settings) :
  exists provider,
    get_travel_time_provider settings = Ok provider /\
    (is_google provider = true <->
       eq_ignore_case (travel_time_provider settings) "google_maps" /\
       exists key, google_maps_api_key settings = Some key /\ key <> "") /\
    (is_google provider = false <-> provider = SimpleHeuristicTravelTimeProvider) /\
    (forall key, google_maps_api_key settings = Some key ->
       is_google provider = true ->
       provider = GoogleMapsTravelTimeProvider key
                    (google_routes_base_url settings)
                    (google_routes_timeout_seconds settings) "DRIVE").
Proof.
  unfold get_travel_time_provider, eq_ignore_case. rewrite lower_google_maps.
  destruct settings as [name key url timeout]; simpl.
  case_bool_decide as Hname; simpl.
  - destruct key as [k|]; simpl.
    + case_bool_decide as Hk; simpl.
      * eexists. split; [done|]. simpl. split_and!; try done.
        split; [done|]. intros (_ & k' & [= <-] & Hne). done.
      * eexists. split; [done|]. simpl. split_and!.
        -- split; [|done]. intros _. split; [done|]. by exists k.
        -- done.
        -- by intros k' [= <-] _.
    + eexists. split; [done|]. simpl. split_and!; try done.
      split; [done|]. by intros (_ & k' & [=] & _).
  - eexists. split; [done|]. simpl. split_and!; try done.
    split; [done|]. by intros (? & _).
Qed.

Example factory_google_maps_with_key :
  get_travel_time_provider
    {| travel_time_provider := "GOOGLE_MAPS";
       google_maps_api_key := Some "test_key";
       google_routes_base_url := "https://routes.googleapis.com/directions/v2:computeRoutes";
       google_routes_timeout_seconds := 10 |}
  = Ok (GoogleMapsTravelTimeProvider "test_key"
          "https://routes.googleapis.com/directions/v2:computeRoutes" 10 "DRIVE").
Proof. reflexivity. Qed.

Example factory_google_maps_empty_key :
  get_travel_time_provider
    {| travel_time_provider := "google_maps";
       google_maps_api_key := Some "";
       google_routes_base_url := "";
       google_routes_timeout_seconds := 10 |}
  = Ok SimpleHeuristicTravelTimeProvider.
Proof. reflexivity. Qed.

Example factory_unknown_provider :
  get_travel_time_provider
    {| travel_time_provider := "unknown_provider";
       google_maps_api_key := Some "test_key";
       google_routes_base_url := "";
       google_routes_timeout_seconds := 10 |}
  = Ok SimpleHeuristicTravelTimeProvider.
Proof. reflexivity. Qed.

Example constructor_rejects_empty_key :
  GoogleMapsTravelTimeProvider_init (Some "") "" 10 =
    Raise (ValueError "API key is required").
Proof. reflexivity. Qed.

(* ===================================================================== *)
(** * Further properties of the route & time optimizer *)
(* ===================================================================== *)

Section OptimizerShape.
Context {W : Type} `{!TravelTimeProvider W}.

Lemma process_block_header dn plan idx b prev (w : W) :
  itinerary_block_header (process_block dn plan idx b prev w).1.1 =
    skeleton_block_header b.
Proof.
  unfold process_block, itinerary_block_header, skeleton_block_header.
  repeat (case_match; simplify_eq/=); done.
Qed.

Lemma generate_blocks_headers dn plan idx blocks prev (w : W) :
  itinerary_block_header <$> (generate_blocks dn plan idx blocks prev w).1.1 =
    skeleton_block_header <$> blocks.
Proof.
  revert idx prev w. induction blocks as [|b blocks IH]; intros idx prev w; [done|].
  simpl. pose proof (process_block_header dn plan idx b prev w) as Hb.
  destruct (process_block dn plan idx b prev w) as [[ib p'] w'].
  specialize (IH (S idx) p' w').
  destruct (generate_blocks dn plan (S idx) blocks p' w') as [[??]?].
  simpl in *. rewrite Hb. f_equal. apply IH.
Qed.

Lemma generate_days_shape plan day_skeletons (w : W) :
  Forall2 (fun d iday =>
             itinerary_day_header iday = skeleton_day_header d /\
             itinerary_block_header <$> id_blocks iday =
               skeleton_block_header <$> ds_blocks d)
          day_skeletons (generate_days plan day_skeletons w).1.
Proof.
  revert w. induction day_skeletons as [|d ds IH]; intros w; simpl.
  - constructor.
  - unfold generate_day.
    pose proof (generate_blocks_headers (ds_day_number d) plan 0 (ds_blocks d) None w)
      as Hh.
    destruct (generate_blocks (ds_day_number d) plan 0 (ds_blocks d) None w)
      as [[o p] w1].
    specialize (IH w1). destruct (generate_days plan ds w1) as [ids w2].
    simpl in *. constructor; [|done]. by split.
Qed.

Lemma generate_itinerary_shape trip_id now db (w : W) resp db' w' mp :
  generate_itinerary trip_id now db w = (Ok resp, db', w') ->
  macro_plans db !! trip_id = Some mp ->
  Forall2 (fun d iday =>
             itinerary_day_header iday = skeleton_day_header d /\
             itinerary_block_header <$> id_blocks iday =
               skeleton_block_header <$> ds_blocks d)
          (days mp) (ir_days resp).
Proof.
  intros Hg Hm.
  apply generate_itinerary_Ok in Hg
    as (ts & mp' & im & pb & pbs & _ & Em & _ & _ & -> & _).
  rewrite Hm in Em. injection Em as <-. apply generate_days_shape.
Qed.

(** X1. A generated itinerary follows the skeleton: one day per skeleton
    day, in order, with its day number, date and theme, and in each day
    one block per skeleton block, in order, with its type and times. *)
Theorem itinerary_follows_skeleton trip_id now db (w : W) resp db' w' mp :
  generate_itinerary trip_id now db w = (Ok resp, db', w') ->
  macro_plans db !! trip_id = Some mp ->
  Forall2 (fun d iday =>
             itinerary_day_header iday = skeleton_day_header d /\
             itinerary_block_header <$> id_blocks iday =
               skeleton_block_header <$> ds_blocks d)
          (days mp) (ir_days resp).
Proof. apply generate_itinerary_shape. Qed.

(** X2. With a travel estimator that always answers, itinerary generation
    raises exactly when a prerequisite is missing: the trip, its macro
    plan, or a stored non-empty POI plan.  With all three present it
    returns. *)
Theorem generate_itinerary_fails_iff trip_id now db (w : W) :
  (exists e, (generate_itinerary trip_id now db w).1.1 = Raise e) <->
  ~ itinerary_prerequisites trip_id db.
Proof.
  unfold generate_itinerary, itinerary_prerequisites.
  destruct (trips db !! trip_id) as [ts|]; simpl.
  2:{ split; [|eauto]. intros _ ([? [=]] & _). }
  destruct (macro_plans db !! trip_id) as [mp|]; simpl.
  2:{ split; [|eauto]. intros _ (_ & [? [=]] & _). }
  destruct (itineraries db !! trip_id) as [im|]; simpl.
  2:{ split; [|eauto]. by intros _ (_ & _ & ? & ? & ? & [=] & _). }
  destruct (poi_plan im) as [[|pb pbs]|] eqn:Ep; simpl.
  - split; [|eauto]. intros _ (_ & _ & ? & ? & ? & [= <-] & E). congruence.
  - destruct (generate_days (pb :: pbs) (days mp) w) as [ds w1]. simpl. split.
    + by intros [e [=]].
    + intros Hn. destruct Hn. split_and!; eauto.
  - split; [|eauto]. intros _ (_ & _ & ? & ? & ? & [= <-] & E). congruence.
Qed.

(** X3. With a travel estimator that always answers, a failed generation
    is clean: the error raised is a [ValueError], the database is left as
    it was and the estimator has not been consulted (the world is
    unchanged). *)
Theorem generate_itinerary_failure_is_clean trip_id now db (w : W) e db' w' :
  generate_itinerary trip_id now db w = (Raise e, db', w') ->
  (exists msg, e = ValueError msg) /\ db' = db /\ w' = w.
Proof.
  unfold generate_itinerary.
  repeat (case_match; simplify_eq/=); intros [= <- <- <-]; eauto.
Qed.

(** X4. A successful generation touches one record only: trips, macro
    plans and the itinerary records of other trips are as before, and in
    the trip's own record the POI plan, its creation time and the record's
    creation time are kept while the update time becomes [now]; the stored
    POI plan reads back as before. *)
Theorem generate_itinerary_frame trip_id now db (w : W) resp db' w' :
  generate_itinerary trip_id now db w = (Ok resp, db', w') ->
  trips db' = trips db /\ macro_plans db' = macro_plans db /\
  (forall later, get_poi_plan trip_id later db' = get_poi_plan trip_id later db) /\
  (forall other, other <> trip_id ->
     itineraries db' !! other = itineraries db !! other) /\
  exists im im',
    itineraries db !! trip_id = Some im /\
    itineraries db' !! trip_id = Some im' /\
    poi_plan im' = poi_plan im /\
    poi_plan_created_at im' = poi_plan_created_at im /\
    im_created_at im' = im_created_at im /\
    im_trip_id im' = im_trip_id im /\
    im_updated_at im' = now /\ itinerary_created_at im' = Some now.
Proof.
  intros Hg.
  apply generate_itinerary_Ok in Hg
    as (ts & mp & im & pb & pbs & _ & _ & Ei & _ & _ & _ & _ & Et & Em & Ei').
  split_and!; try done.
  - intros later. unfold get_poi_plan. by rewrite Ei', lookup_insert_eq, Ei.
  - intros other Hne. by rewrite Ei', lookup_insert_ne.
  - eexists im, _. split; [done|]. rewrite Ei', lookup_insert_eq.
    split; [done|]. by simpl.
Qed.

Lemma generate_itinerary_response trip_id now db (w : W) resp db' w' :
  generate_itinerary trip_id now db w = (Ok resp, db', w') ->
  resp = {| ir_trip_id := trip_id; ir_days := ir_days resp;
            ir_created_at := now +:+ "Z" |}.
Proof.
  unfold generate_itinerary.
  repeat (case_match; simplify_eq/=); by intros [= <- <- <-].
Qed.

(** X5. Reading back: after a successful generation [get_itinerary]
    returns the generated itinerary, creation stamp included, when the
    macro plan has at least one day, and nothing when it has none (an empty
    stored list reads as no itinerary). *)
Theorem get_itinerary_after_generate trip_id now later db (w : W) resp db' w' mp :
  generate_itinerary trip_id now db w = (Ok resp, db', w') ->
  macro_plans db !! trip_id = Some mp ->
  get_itinerary trip_id later db' =
    if decide (days mp = []) then None else Some resp.
Proof.
  intros Hg Hm. pose proof (generate_itinerary_response _ _ _ _ _ _ _ Hg) as Hr.
  pose proof (generate_itinerary_shape _ _ _ _ _ _ _ _ Hg Hm) as Hshape.
  apply generate_itinerary_Ok in Hg
    as (ts & mp' & im & pb & pbs & _ & _ & _ & _ & Ed & _ & Hid & _ & _ & Ei').
  unfold get_itinerary. rewrite Ei', lookup_insert_eq. simpl.
  destruct (ir_days resp) as [|d ds] eqn:Edays; simpl.
  - apply Forall2_nil_inv_r in Hshape. by rewrite Hshape.
  - destruct (days mp) as [|sd sds]; [by apply Forall2_nil_cons_inv in Hshape|].
    simpl. f_equal. by rewrite Hr.
Qed.

Lemma select_poi_None_of_empty dn idx plan :
  Forall (fun pb => candidates pb = []) plan ->
  _select_poi_for_block dn idx plan = None.
Proof.
  intros Hall. unfold _select_poi_for_block.
  destruct (find_matching_block dn idx plan) as [pb|] eqn:E; [|done].
  apply find_matching_block_Some in E as (pre & post & -> & _).
  apply Forall_app in Hall as [_ Hall]. apply Forall_cons in Hall as [-> _]. done.
Qed.

Lemma generate_blocks_unselected dn plan idx blocks (w : W) :
  Forall (fun pb => candidates pb = []) plan ->
  let r := generate_blocks dn plan idx blocks None w in
  Forall (fun ib => poi ib = None /\ travel_fields ib = (0, None, None)) r.1.1 /\
  r.1.2 = None /\ r.2 = w.
Proof.
  intros Hall. revert idx. induction blocks as [|b blocks IH]; intros idx; simpl.
  - by split.
  - assert (let pb := process_block dn plan idx b None w in
            (poi pb.1.1 = None /\ travel_fields pb.1.1 = (0, None, None)) /\
            pb.1.2 = None /\ pb.2 = w) as Hpb.
    { destruct (_block_needs_poi (sb_block_type b)) eqn:Hn.
      - destruct (process_block_needs dn plan idx b None w Hn)
          as (Hs & Hc & _ & Hz & _).
        pose proof (select_poi_None_of_empty dn (Z.of_nat idx) plan Hall) as Hsel.
        destruct (Hz eq_refl Hsel) as (? & ? & ? & ?).
        simpl. unfold travel_fields. rewrite Hs, Hc, Hsel. split_and!; congruence.
      - apply needs_poi_false_iff in Hn.
        destruct (process_block_rest_or_travel dn plan idx b None w Hn)
          as (? & ? & ? & ? & _ & ? & ?).
        simpl. unfold travel_fields. split_and!; congruence. }
    destruct (process_block dn plan idx b None w) as [[ib p'] w'].
    simpl in Hpb. destruct Hpb as (Hib & -> & ->).
    specialize (IH (S idx)).
    destruct (generate_blocks dn plan (S idx) blocks None w) as [[o p''] w''].
    simpl in *. destruct IH as (IH1 & IH2 & IH3). split_and!; try done.
    by constructor.
Qed.

(** X6. When no POI plan block has a candidate, the generated itinerary
    has no venue and zero/absent travel figures on every block, and the
    estimator is never consulted: the world is as it was. *)
Theorem itinerary_without_candidates trip_id now db (w : W) resp db' w' im plan :
  generate_itinerary trip_id now db w = (Ok resp, db', w') ->
  itineraries db !! trip_id = Some im ->
  poi_plan im = Some plan ->
  Forall (fun pb => candidates pb = []) plan ->
  w' = w /\
  Forall (fun iday =>
            Forall (fun ib => poi ib = None /\ travel_fields ib = (0, None, None))
                   (id_blocks iday))
         (ir_days resp).
Proof.
  intros Hg Hi Hp Hall.
  apply generate_itinerary_Ok in Hg
    as (ts & mp & im' & pb & pbs & _ & _ & Ei & Ep & -> & -> & _).
  rewrite Hi in Ei. injection Ei as <-. rewrite Hp in Ep. injection Ep as ->.
  generalize (days mp). intros ds. induction ds as [|d ds IH]; simpl.
  - by split.
  - unfold generate_day.
    destruct (generate_blocks_unselected (ds_day_number d) (pb :: pbs) 0
                (ds_blocks d) w Hall) as (Hb & _ & Hw).
    destruct (generate_blocks (ds_day_number d) (pb :: pbs) 0 (ds_blocks d) None w)
      as [[o p] w1].
    simpl in Hb, Hw. subst w1.
    destruct (generate_days (pb :: pbs) ds w) as [ids w2]. simpl in *.
    destruct IH as [-> IH]. split; [done|]. by constructor.
Qed.

(** X7. The optimizer never invents a venue: a venue on block [i] of day
    [j] of a generated itinerary sits on a meal, activity or nightlife
    block of the skeleton, and it is the first candidate of a POI plan
    block keyed by that day's number and [i]. *)
Theorem itinerary_venues_come_from_plan
    trip_id now db (w : W) resp db' w' mp im plan j iday i ib v :
  generate_itinerary trip_id now db w = (Ok resp, db', w') ->
  macro_plans db !! trip_id = Some mp ->
  itineraries db !! trip_id = Some im ->
  poi_plan im = Some plan ->
  ir_days resp !! j = Some iday ->
  id_blocks iday !! i = Some ib ->
  poi ib = Some v ->
  exists day b pb,
    days mp !! j = Some day /\ ds_blocks day !! i = Some b /\
    is_venue_type (sb_block_type b) /\
    pb ∈ plan /\ matches (ds_day_number day) (Z.of_nat i) pb /\
    head (candidates pb) = Some v.
Proof.
  intros Hg Hm Hi Hp Hj Hib Hv.
  pose proof (generate_itinerary_shape _ _ _ _ _ _ _ _ Hg Hm) as Hshape.
  destruct (Forall2_lookup_r _ _ _ _ _ Hshape Hj) as (day & Hday & _ & Hblocks).
  assert (exists b, ds_blocks day !! i = Some b) as [b Hb].
  { apply lookup_lt_is_Some. apply lookup_lt_Some in Hib.
    apply (f_equal length) in Hblocks. rewrite !length_fmap in Hblocks. lia. }
  pose proof Hg as Hg'.
  apply generate_itinerary_Ok in Hg'
    as (ts & mp' & im' & pb0 & pbs & Et & _ & Ei & Ep & _).
  rewrite Hi in Ei. injection Ei as <-.
  destruct (generate_itinerary_block trip_id now db w ts mp im plan j day i b)
    as (resp2 & db2 & w2 & iday2 & Hg2 & Hd2 & Hl2); try done.
  { intros ->. congruence. }
  rewrite Hg in Hg2. injection Hg2 as <- <- <-.
  rewrite Hj in Hd2. injection Hd2 as <-.
  simpl in Hl2. rewrite Hib in Hl2. injection Hl2 as Hibeq.
  exists day, b.
  destruct (_block_needs_poi (sb_block_type b)) eqn:Hn.
  - match type of Hibeq with
    | _ = (process_block ?dn ?pl ?i ?b ?p ?w).1.1 =>
        destruct (process_block_needs dn pl i b p w Hn) as (Hs & _)
    end.
    rewrite <- Hibeq in Hs. rewrite Hv in Hs.
    destruct (select_poi_for_block_spec (ds_day_number day) (Z.of_nat i) plan)
      as [(pre & pb & post & -> & _ & Hmatch & Hsel)|[_ Hsel]];
      [|congruence].
    exists pb. split_and!; try done.
    + unfold is_venue_type. by apply needs_poi_iff.
    + apply elem_of_app. right. by left.
    + congruence.
  - apply needs_poi_false_iff in Hn.
    match type of Hibeq with
    | _ = (process_block ?dn ?pl ?i ?b ?p ?w).1.1 =>
        destruct (process_block_rest_or_travel dn pl i b p w Hn) as (Hnone & _)
    end.
    rewrite <- Hibeq in Hnone. congruence.
Qed.

End OptimizerShape.

Section EstimatorCalls.
Context {W : Type} (p : TravelTimeProvider W).

Lemma process_block_counted dn plan idx b prev (w : W) (n : nat) :
  let r := process_block (H:=counted p) dn plan idx b prev (w, n) in
  r.2.2 = n \/ (r.2.2 = S n /\ is_venue_type (sb_block_type b)).
Proof.
  unfold process_block.
  destruct (_block_needs_poi (sb_block_type b)) eqn:Hn; simpl; [|by left].
  apply needs_poi_iff in Hn.
  destruct (bool_decide (is_Some prev) ||
            bool_decide (is_Some (_select_poi_for_block dn (Z.of_nat idx) plan)));
    simpl; [|by left].
  destruct (estimate_travel _ _ w) as [r w1]. simpl. by right.
Qed.

Lemma generate_blocks_counted dn plan idx blocks prev (w : W) (n : nat) :
  let r := generate_blocks (H:=counted p) dn plan idx blocks prev (w, n) in
  (n <= r.2.2 <=
     n + length (filter (fun b => is_venue_type (sb_block_type b)) blocks))%nat.
Proof.
  revert idx prev w n.
  induction blocks as [|b blocks IH]; intros idx prev w n; simpl; [lia|].
  pose proof (process_block_counted dn plan idx b prev w n) as Hb.
  destruct (process_block (H:=counted p) dn plan idx b prev (w, n))
    as [[ib p'] [w1 n1]].
  specialize (IH (S idx) p' w1 n1).
  destruct (generate_blocks (H:=counted p) dn plan (S idx) blocks p' (w1, n1))
    as [[o p''] [w2 n2]].
  simpl in *. destruct Hb as [->|[-> Hv]].
  - destruct (decide (is_venue_type (sb_block_type b)));
      [rewrite filter_cons_True by done|rewrite filter_cons_False by done];
      simpl; lia.
  - rewrite filter_cons_True by done. simpl. lia.
Qed.

Lemma venue_entries_length (f : nat -> SkeletonBlock -> Z * nat * SkeletonBlock)
    (blocks : list SkeletonBlock) :
  (forall i b, (f i b).2 = b) ->
  length (filter is_venue_entry (imap f blocks)) =
    length (filter (fun b => is_venue_type (sb_block_type b)) blocks).
Proof.
  revert f. induction blocks as [|b blocks IH]; intros f Hf; [done|].
  rewrite imap_cons.
  destruct (decide (is_venue_type (sb_block_type b))) as [Hv|Hv].
  - rewrite !filter_cons_True; [|done|by unfold is_venue_entry; rewrite Hf].
    simpl. f_equal. apply IH. intros i b'. apply Hf.
  - rewrite !filter_cons_False; [|done|by unfold is_venue_entry; rewrite Hf].
    apply IH. intros i b'. apply Hf.
Qed.

Lemma generate_days_counted plan day_skeletons (w : W) (n : nat) :
  let r := generate_days (H:=counted p) plan day_skeletons (w, n) in
  (n <= r.2.2 <=
     n + length (filter is_venue_entry (day_skeletons ≫= indexed_blocks)))%nat.
Proof.
  revert w n. induction day_skeletons as [|d ds IH]; intros w n; simpl; [lia|].
  unfold generate_day.
  pose proof (generate_blocks_counted (ds_day_number d) plan 0 (ds_blocks d) None w n)
    as Hb.
  destruct (generate_blocks (H:=counted p) (ds_day_number d) plan 0
              (ds_blocks d) None (w, n)) as [[o p'] [w1 n1]].
  specialize (IH w1 n1).
  destruct (generate_days (H:=counted p) plan ds (w1, n1)) as [ids [w2 n2]].
  simpl in *. rewrite filter_app, length_app.
  unfold indexed_blocks at 1. rewrite venue_entries_length by done.
  change (list_bind _ _ indexed_blocks ds) with (ds ≫= indexed_blocks). lia.
Qed.

(** X8. Itinerary generation consults the travel estimator at most once
    per meal, activity or nightlife block of the macro plan, and never for
    a rest or travel block. *)
Theorem estimator_calls_bounded trip_id now db (w : W) (n : nat) resp db' w' n' mp :
  generate_itinerary (H:=counted p) trip_id now db (w, n) = (Ok resp, db', (w', n')) ->
  macro_plans db !! trip_id = Some mp ->
  (n <= n' <= n + length (venue_blocks mp))%nat.
Proof.
  intros Hg Hm.
  apply generate_itinerary_Ok in Hg
    as (ts & mp' & im & pb & pbs & _ & Em & _ & _ & _ & Hw & _).
  rewrite Hm in Em. injection Em as <-.
  pose proof (generate_days_counted (pb :: pbs) (days mp) w n) as Hc.
  simpl in Hc. rewrite <- Hw in Hc. exact Hc.
Qed.

End EstimatorCalls.

Lemma itinerary_follows_skeleton_witness :
  exists resp db' w',
    generate_itinerary 7%N "t1" Sample.db tt = (Ok resp, db', w') /\
    Forall2 (fun d iday =>
               itinerary_day_header iday = skeleton_day_header d /\
               itinerary_block_header <$> id_blocks iday =
                 skeleton_block_header <$> ds_blocks d)
            (days Sample2.macro_plan) (ir_days resp).
Proof.
  eexists _, _, _. split; [reflexivity|].
  eapply (itinerary_follows_skeleton 7%N "t1" Sample.db tt _ _ _ Sample2.macro_plan);
    reflexivity.
Defined.

Lemma generate_itinerary_failure_is_clean_witness :
  exists e db' w',
    generate_itinerary 99%N "t1" Sample.db tt = (Raise e, db', w') /\
    (exists msg, e = ValueError msg) /\ db' = Sample.db /\ w' = tt.
Proof.
  eexists _, _, _. split; [reflexivity|].
  eapply (generate_itinerary_failure_is_clean 99%N "t1" Sample.db tt).
  reflexivity.
Defined.

Lemma generate_itinerary_frame_witness :
  exists resp db' w',
    generate_itinerary 7%N "t1" Sample.db tt = (Ok resp, db', w') /\
    trips db' = trips Sample.db /\ macro_plans db' = macro_plans Sample.db /\
    (forall later, get_poi_plan 7%N later db' = get_poi_plan 7%N later Sample.db) /\
    (forall other, other <> 7%N ->
       itineraries db' !! other = itineraries Sample.db !! other) /\
    exists im im',
      itineraries Sample.db !! 7%N = Some im /\
      itineraries db' !! 7%N = Some im' /\
      poi_plan im' = poi_plan im /\
      poi_plan_created_at im' = poi_plan_created_at im /\
      im_created_at im' = im_created_at im /\
      im_trip_id im' = im_trip_id im /\
      im_updated_at im' = "t1" /\ itinerary_created_at im' = Some "t1".
Proof.
  eexists _, _, _. split; [reflexivity|].
  eapply (generate_itinerary_frame 7%N "t1" Sample.db tt). reflexivity.
Defined.

Lemma get_itinerary_after_generate_witness :
  exists resp db' w',
    generate_itinerary 7%N "t1" Sample.db tt = (Ok resp, db', w') /\
    get_itinerary 7%N "t9" db' =
      if decide (days Sample2.macro_plan = []) then None else Some resp.
Proof.
  eexists _, _, _. split; [reflexivity|].
  eapply (get_itinerary_after_generate 7%N "t1" "t9" Sample.db tt); reflexivity.
Defined.

Lemma itinerary_without_candidates_witness :
  exists resp db' w',
    generate_itinerary 7%N "t1" Sample2.bare_db tt = (Ok resp, db', w') /\
    w' = tt /\
    Forall (fun iday =>
              Forall (fun ib => poi ib = None /\ travel_fields ib = (0, None, None))
                     (id_blocks iday))
           (ir_days resp).
Proof.
  eexists _, _, _. split; [reflexivity|].
  eapply (itinerary_without_candidates 7%N "t1" Sample2.bare_db tt);
    [reflexivity | reflexivity | reflexivity |].
  apply Forall_cons. split; [reflexivity|].
  apply Forall_cons. split; [reflexivity|]. apply Forall_nil_2.
Defined.

Lemma itinerary_venues_come_from_plan_witness :
  exists day b pb,
    days Sample2.macro_plan !! 1%nat = Some day /\
    ds_blocks day !! 3%nat = Some b /\
    is_venue_type (sb_block_type b) /\
    pb ∈ Sample.plan /\ matches (ds_day_number day) (Z.of_nat 3) pb /\
    head (candidates pb) = Some Sample.museum.
Proof.
  eapply (itinerary_venues_come_from_plan 7%N "t1" Sample.db tt _ _ _
            Sample2.macro_plan Sample.model Sample.plan 1 _ 3 _ Sample.museum);
    reflexivity.
Defined.

Lemma estimator_calls_bounded_witness :
  exists resp db' n',
    generate_itinerary (H:=counted Sample.provider) 7%N "t1" Sample.db (tt, 0%nat) =
      (Ok resp, db', (tt, n')) /\
    (0 <= n' <= 0 + length (venue_blocks Sample2.macro_plan))%nat.
Proof.
  eexists _, _, _. split; [reflexivity|].
  eapply (estimator_calls_bounded Sample.provider 7%N "t1" Sample.db tt 0);
    reflexivity.
Defined.

(* ===================================================================== *)
(** * Further properties of the POI planner *)
(* ===================================================================== *)

Section PlannerStore.
Context {W : Type} (p : POIProvider W).

Lemma generate_poi_plan_Ok trip_id now db (w : W) resp db' w' :
  generate_poi_plan p trip_id now db w = (Ok (resp, db'), w') ->
  exists trip mp,
    trips db !! trip_id = Some trip /\
    macro_plans db !! trip_id = Some mp /\
    plan_days p trip (days mp) w = (Ok (ppr_blocks resp), w') /\
    resp = {| ppr_trip_id := trip_id; ppr_blocks := ppr_blocks resp;
              ppr_created_at := now +:+ "Z" |} /\
    db' = store_poi_plan trip_id now (ppr_blocks resp) db.
Proof.
  unfold generate_poi_plan.
  destruct (trips db !! trip_id) as [trip|]; [|done].
  destruct (macro_plans db !! trip_id) as [mp|]; [|done].
  unfold mbind, M_bind, bind.
  destruct (plan_days p trip (days mp) w) as [[pbs|e] w1] eqn:Ep; [|done].
  intros [= <- <- <-]. exists trip, mp. simpl. by rewrite Ep.
Qed.

(** X9. Regenerating the POI plan patches the trip's record: the stored
    itinerary days and their creation time survive, so the itinerary made
    from the previous POI plan still reads back; trips, macro plans and
    other trips' records are untouched, and the record's POI plan becomes
    the returned blocks. *)
Theorem generate_poi_plan_frame trip_id now db (w : W) resp db' w' :
  generate_poi_plan p trip_id now db w = (Ok (resp, db'), w') ->
  trips db' = trips db /\ macro_plans db' = macro_plans db /\
  (forall other, other <> trip_id ->
     itineraries db' !! other = itineraries db !! other) /\
  stored_days trip_id db' = stored_days trip_id db /\
  (forall later, get_itinerary trip_id later db' = get_itinerary trip_id later db) /\
  itineraries db' !! trip_id ≫= itinerary_created_at =
    itineraries db !! trip_id ≫= itinerary_created_at /\
  itineraries db' !! trip_id ≫= poi_plan = Some (ppr_blocks resp) /\
  itineraries db' !! trip_id ≫= poi_plan_created_at = Some now.
Proof.
  intros Hg. apply generate_poi_plan_Ok in Hg as (trip & mp & _ & _ & _ & _ & ->).
  unfold store_poi_plan, stored_days, get_itinerary. simpl. split_and!; try done.
  - intros other Hne. by rewrite lookup_insert_ne.
  - rewrite lookup_insert_eq. by destruct (itineraries db !! trip_id).
  - intros later. rewrite lookup_insert_eq. by destruct (itineraries db !! trip_id).
  - rewrite lookup_insert_eq. by destruct (itineraries db !! trip_id).
  - rewrite lookup_insert_eq. by destruct (itineraries db !! trip_id).
  - rewrite lookup_insert_eq. by destruct (itineraries db !! trip_id).
Qed.

(** X10. Reading back: after a successful generation [get_poi_plan]
    returns the generated response, creation stamp included, when at least
    one block was planned, and nothing when the plan is empty. *)
Theorem get_poi_plan_after_generate trip_id now later db (w : W) resp db' w' :
  generate_poi_plan p trip_id now db w = (Ok (resp, db'), w') ->
  get_poi_plan trip_id later db' =
    if decide (ppr_blocks resp = []) then None else Some resp.
Proof.
  intros Hg.
  apply generate_poi_plan_Ok in Hg as (trip & mp & _ & _ & _ & Hr & ->).
  unfold get_poi_plan, store_poi_plan. simpl. rewrite lookup_insert_eq.
  destruct (ppr_blocks resp) as [|pb pbs] eqn:Eb.
  - by destruct (itineraries db !! trip_id).
  - rewrite Hr. by destruct (itineraries db !! trip_id).
Qed.

Lemma plan_blocks_no_venue trip dn idx blocks (w : W) :
  Forall (fun b => ~ is_venue_type (sb_block_type b)) blocks ->
  plan_blocks p trip dn idx blocks w = (Ok [], w).
Proof.
  intros Hall. revert idx. induction Hall as [|b blocks Hb _ IH]; intros idx; [done|].
  simpl. rewrite <- needs_pois_iff in Hb.
  destruct (_block_needs_pois (sb_block_type b)); [done|]. apply IH.
Qed.

Lemma venue_entries_nil (f : nat -> SkeletonBlock -> Z * nat * SkeletonBlock)
    (blocks : list SkeletonBlock) :
  (forall i b, (f i b).2 = b) ->
  filter is_venue_entry (imap f blocks) = [] ->
  Forall (fun b => ~ is_venue_type (sb_block_type b)) blocks.
Proof.
  revert f. induction blocks as [|b blocks IH]; intros f Hf Hnil; [constructor|].
  rewrite imap_cons in Hnil.
  destruct (decide (is_venue_type (sb_block_type b))) as [Hv|Hv].
  - rewrite filter_cons_True in Hnil; [done|]. unfold is_venue_entry. by rewrite Hf.
  - rewrite filter_cons_False in Hnil by (unfold is_venue_entry; by rewrite Hf).
    constructor; [done|]. eapply IH; [|done]. intros i b'. apply Hf.
Qed.

Lemma plan_days_no_venue trip day_skeletons (w : W) :
  filter is_venue_entry (day_skeletons ≫= indexed_blocks) = [] ->
  plan_days p trip day_skeletons w = (Ok [], w).
Proof.
  induction day_skeletons as [|d ds IH]; intros Hnil; [done|].
  simpl in Hnil. rewrite filter_app in Hnil.
  apply app_eq_nil in Hnil as [Hd Hds].
  simpl. unfold mbind, M_bind, bind.
  rewrite plan_blocks_no_venue.
  - unfold mbind, M_bind, bind in IH. by rewrite (IH Hds).
  - by apply (venue_entries_nil (fun i b => (ds_day_number d, i, b))).
Qed.

(** X11. A macro plan without any meal, activity or nightlife block plans
    to an empty POI plan without a single query; itinerary generation on
    the resulting database then fails with a [ValueError], the empty plan
    reading as a missing one. *)
Theorem empty_poi_plan_blocks_itinerary
    trip_id now now' db (w : W) trip mp :
  trips db !! trip_id = Some trip ->
  macro_plans db !! trip_id = Some mp ->
  venue_blocks mp = [] ->
  exists resp db',
    generate_poi_plan p trip_id now db w = (Ok (resp, db'), w) /\
    ppr_blocks resp = [] /\
    forall (W' : Type) (est : TravelTimeProvider W') (w2 : W'),
      exists msg,
        generate_itinerary trip_id now' db' w2 = (Raise (ValueError msg), db', w2).
Proof.
  intros Ht Hm Hv. unfold generate_poi_plan. rewrite Ht, Hm.
  unfold mbind, M_bind, bind. rewrite (plan_days_no_venue trip (days mp) w Hv).
  eexists _, _. split; [done|]. split; [done|].
  intros W' est w2. unfold generate_itinerary, store_poi_plan. simpl.
  rewrite Ht, Hm, lookup_insert_eq.
  destruct (itineraries db !! trip_id); simpl; eauto.
Qed.

End PlannerStore.

Section PlannerFailures.
Context {W : Type} (p : POIProvider W).

Lemma plan_blocks_first_failure trip dn idx blocks (w : W)
    (log : list (unit * SearchQuery)) x rest e w1 :
  filter is_venue_entry (imap (fun i b => (dn, (idx + i)%nat, b)) blocks) = x :: rest ->
  search_pois p (expected_query trip x.2) w = (Raise e, w1) ->
  plan_blocks (logged tt p) trip dn idx blocks (w, log) =
    (Raise e, (w1, log ++ [(tt, expected_query trip x.2)])).
Proof.
  revert idx. induction blocks as [|b blocks IH]; intros idx Hf Hs; [done|].
  rewrite imap_cons, Nat.add_0_r in Hf.
  assert (imap ((fun i b0 => (dn, (idx + i)%nat, b0)) ∘ S) blocks =
          imap (fun i b0 => (dn, (S idx + i)%nat, b0)) blocks) as Himap.
  { apply imap_ext. intros i y _. simpl. do 2 f_equal. lia. }
  rewrite Himap in Hf. simpl.
  destruct (_block_needs_pois (sb_block_type b)) eqn:Hn; simpl.
  - apply needs_pois_iff in Hn. rewrite filter_cons_True in Hf by done.
    injection Hf as <- _. simpl in Hs.
    unfold mbind, M_bind, bind. simpl. unfold expected_query in Hs.
    unfold CANDIDATES_PER_BLOCK. by rewrite Hs.
  - assert (~ is_venue_type (sb_block_type b)) as Hv.
    { rewrite <- needs_pois_iff. congruence. }
    rewrite filter_cons_False in Hf by done. by apply IH.
Qed.

Lemma plan_days_first_failure trip day_skeletons (w : W)
    (log : list (unit * SearchQuery)) x rest e w1 :
  filter is_venue_entry (day_skeletons ≫= indexed_blocks) = x :: rest ->
  search_pois p (expected_query trip x.2) w = (Raise e, w1) ->
  plan_days (logged tt p) trip day_skeletons (w, log) =
    (Raise e, (w1, log ++ [(tt, expected_query trip x.2)])).
Proof.
  induction day_skeletons as [|d ds IH]; intros Hf Hs; [done|].
  simpl in Hf. rewrite filter_app in Hf. simpl. unfold mbind, M_bind, bind.
  destruct (filter is_venue_entry (indexed_blocks d)) as [|y ys] eqn:Ed.
  - rewrite (plan_blocks_no_venue (logged tt p)).
    + unfold mbind, M_bind, bind in IH. by rewrite (IH Hf Hs).
    + by apply (venue_entries_nil (fun i b => (ds_day_number d, i, b))).
  - injection Hf as -> _.
    by rewrite (plan_blocks_first_failure trip (ds_day_number d) 0 (ds_blocks d)
                  w log x ys e w1 Ed Hs).
Qed.

(** X12. POI planning stops at the first failure: when the selector
    raises on the query of the first venue-needing block, that exception
    comes out of [generate_poi_plan] as it is, in the world the failed
    query left and after that single query. *)
Theorem poi_plan_stops_at_first_failure
    trip_id now db (w : W) (log : list (unit * SearchQuery)) trip mp x rest e w1 :
  trips db !! trip_id = Some trip ->
  macro_plans db !! trip_id = Some mp ->
  venue_blocks mp = x :: rest ->
  search_pois p (expected_query trip x.2) w = (Raise e, w1) ->
  generate_poi_plan (logged tt p) trip_id now db (w, log) =
    (Raise e, (w1, log ++ [(tt, expected_query trip x.2)])).
Proof.
  intros Ht Hm Hv Hs. unfold generate_poi_plan. rewrite Ht, Hm.
  unfold mbind, M_bind, bind.
  by rewrite (plan_days_first_failure trip (days mp) w log x rest e w1 Hv Hs).
Qed.

(** X13. With a selector that answers every query, POI planning raises
    exactly when the trip or its macro plan is missing; the error is then a
    [ValueError] raised before any query: the world and the log of queries
    are as they were. *)
Theorem poi_plan_fails_iff trip_id now db (w : W) (log : list (unit * SearchQuery)) :
  (forall q w0, exists l w', search_pois p q w0 = (Ok l, w')) ->
  ((exists e s', generate_poi_plan (logged tt p) trip_id now db (w, log) = (Raise e, s'))
     <-> trips db !! trip_id = None \/ macro_plans db !! trip_id = None) /\
  (trips db !! trip_id = None \/ macro_plans db !! trip_id = None ->
   exists msg,
     generate_poi_plan (logged tt p) trip_id now db (w, log) =
       (Raise (ValueError msg), (w, log))).
Proof.
  intros Hans. unfold generate_poi_plan.
  destruct (trips db !! trip_id) as [trip|] eqn:Ht.
  2:{ split; [split|]; eauto. }
  destruct (macro_plans db !! trip_id) as [mp|] eqn:Hm.
  2:{ split; [split|]; eauto. }
  destruct (plan_days_spec p Hans trip (days mp) w log) as (pbs & w' & Hp & _).
  simpl in Hp. unfold mbind, M_bind, bind. rewrite Hp. split.
  - split; [by intros (e & s' & [=])|by intros [[=]|[=]]].
  - by intros [[=]|[=]].
Qed.

End PlannerFailures.

(* ===================================================================== *)
(** * POI planning followed by itinerary generation *)
(* ===================================================================== *)

Section Pipeline.
Context {W W' : Type} `{!TravelTimeProvider W'}.
Context (f : SearchQuery -> list POICandidate).

Lemma plan_blocks_answering trip dn idx blocks (w : W) :
  plan_blocks (answering f) trip dn idx blocks w =
    (Ok ((fun x => plan_block_of x (f (expected_query trip x.2))) <$>
           filter is_venue_entry (imap (fun i b => (dn, (idx + i)%nat, b)) blocks)),
     w).
Proof.
  revert idx. induction blocks as [|b blocks IH]; intros idx; [done|].
  rewrite imap_cons, Nat.add_0_r.
  assert (imap ((fun i b0 => (dn, (idx + i)%nat, b0)) ∘ S) blocks =
          imap (fun i b0 => (dn, (S idx + i)%nat, b0)) blocks) as Himap.
  { apply imap_ext. intros i y _. simpl. do 2 f_equal. lia. }
  rewrite Himap. simpl.
  destruct (_block_needs_pois (sb_block_type b)) eqn:Hn; simpl.
  - apply needs_pois_iff in Hn. rewrite filter_cons_True by done.
    unfold mbind, M_bind, bind. simpl. by rewrite IH.
  - assert (~ is_venue_type (sb_block_type b)) as Hv.
    { rewrite <- needs_pois_iff. congruence. }
    rewrite filter_cons_False by done. apply IH.
Qed.

Lemma plan_days_answering trip day_skeletons (w : W) :
  plan_days (answering f) trip day_skeletons w =
    (Ok ((fun x => plan_block_of x (f (expected_query trip x.2))) <$>
           filter is_venue_entry (day_skeletons ≫= indexed_blocks)),
     w).
Proof.
  induction day_skeletons as [|d ds IH]; [done|].
  simpl. unfold mbind, M_bind, bind. rewrite plan_blocks_answering.
  unfold mbind, M_bind, bind in IH. rewrite IH. simpl.
  by rewrite filter_app, fmap_app.
Qed.

Lemma elem_of_indexed_blocks d x :
  x ∈ indexed_blocks d <->
  x.1.1 = ds_day_number d /\ ds_blocks d !! x.1.2 = Some x.2.
Proof.
  unfold indexed_blocks. rewrite list_elem_of_lookup. split.
  - intros (i & Hi). rewrite list_lookup_imap in Hi.
    destruct (ds_blocks d !! i) as [b|] eqn:Eb; [|done].
    simpl in Hi. by simplify_eq/=.
  - intros [Hdn Hb]. exists x.1.2. rewrite list_lookup_imap, Hb. simpl.
    destruct x as [[dn i] b]. simpl in *. by subst.
Qed.

Lemma indexed_blocks_keys_NoDup (day_skeletons : list DaySkeleton) :
  NoDup (ds_day_number <$> day_skeletons) ->
  NoDup (fst <$> (day_skeletons ≫= indexed_blocks)).
Proof.
  induction day_skeletons as [|d ds IH]; intros Hnd; [constructor|].
  rewrite fmap_cons in Hnd. apply NoDup_cons in Hnd as [Hd Hnd].
  simpl. rewrite fmap_app. apply NoDup_app. split_and!.
  - apply NoDup_alt. intros i j k Hi Hj.
    rewrite list_lookup_fmap in Hi, Hj. unfold indexed_blocks in Hi, Hj.
    rewrite list_lookup_imap in Hi, Hj.
    destruct (ds_blocks d !! i); [|done]. destruct (ds_blocks d !! j); [|done].
    simpl in *. by simplify_eq.
  - intros k Hk Hk'.
    apply list_elem_of_fmap in Hk as (x & -> & Hx).
    apply elem_of_indexed_blocks in Hx as [Hdn _].
    apply list_elem_of_fmap in Hk' as (y & Hxy & Hy).
    apply list_elem_of_bind in Hy as (d' & Hy & Hd').
    apply elem_of_indexed_blocks in Hy as [Hdn' _].
    apply Hd. apply list_elem_of_fmap. exists d'. split; [|done].
    rewrite <- Hdn, <- Hdn'. by rewrite Hxy.
  - by apply IH.
Qed.

Lemma find_matching_block_unique (cs : Z * nat * SkeletonBlock -> list POICandidate)
    (l : list (Z * nat * SkeletonBlock)) x :
  NoDup (fst <$> l) -> x ∈ l ->
  find_matching_block x.1.1 (Z.of_nat x.1.2) ((fun y => plan_block_of y (cs y)) <$> l) =
    Some (plan_block_of x (cs x)).
Proof.
  induction l as [|y l IH]; intros Hnd Hx; [by apply elem_of_nil in Hx|].
  rewrite fmap_cons in Hnd. apply NoDup_cons in Hnd as [Hy Hnd].
  rewrite fmap_cons. simpl.
  destruct (Z.eqb_spec y.1.1 x.1.1) as [Hd|Hd];
    [destruct (Z.eqb_spec (Z.of_nat y.1.2) (Z.of_nat x.1.2)) as [Hi|Hi]|]; simpl.
  - apply elem_of_cons in Hx as [->|Hx]; [done|].
    exfalso. apply Hy. apply list_elem_of_fmap. exists x. split; [|done].
    destruct x as [[??]?], y as [[??]?]. simpl in *. f_equal; [done|lia].
  - apply elem_of_cons in Hx as [->|Hx]; [done|]. by apply IH.
  - apply elem_of_cons in Hx as [->|Hx]; [done|]. by apply IH.
Qed.

(** X14. When the days of the macro plan have pairwise distinct day
    numbers and the selector's answer depends on the query alone, POI
    planning followed by itinerary generation succeeds and gives every
    meal, activity or nightlife block the first candidate the selector
    returns for that block's own query (city, the block's categories,
    budget, 3, hotel location), or no venue when it returns none. *)
Theorem pipeline_selects_own_first_candidate
    trip_id now now' db (w : W) (w0 : W') trip mp j day i b :
  trips db !! trip_id = Some trip ->
  macro_plans db !! trip_id = Some mp ->
  NoDup (ds_day_number <$> days mp) ->
  days mp !! j = Some day ->
  ds_blocks day !! i = Some b ->
  is_venue_type (sb_block_type b) ->
  exists plan_resp db1 resp db2 w2 iday ib,
    generate_poi_plan (answering f) trip_id now db w = (Ok (plan_resp, db1), w) /\
    generate_itinerary trip_id now' db1 w0 = (Ok resp, db2, w2) /\
    ir_days resp !! j = Some iday /\ id_blocks iday !! i = Some ib /\
    poi ib = head (f (expected_query trip b)).
Proof.
  intros Ht Hm Hnd Hj Hb Hv.
  set (mk := fun x : Z * nat * SkeletonBlock =>
               plan_block_of x (f (expected_query trip x.2))).
  set (plan := mk <$> venue_blocks mp).
  assert ((ds_day_number day, i, b) ∈ venue_blocks mp) as Hin.
  { unfold venue_blocks. apply list_elem_of_filter. split; [done|].
    apply list_elem_of_bind. exists day. split.
    - by apply elem_of_indexed_blocks.
    - by eapply list_elem_of_lookup_2. }
  assert (plan <> []) as Hne.
  { unfold plan. intros Hnil. apply fmap_nil_inv in Hnil.
    rewrite Hnil in Hin. by apply elem_of_nil in Hin. }
  assert (_select_poi_for_block (ds_day_number day) (Z.of_nat i) plan =
            head (f (expected_query trip b))) as Hsel.
  { assert (NoDup (fst <$> venue_blocks mp)) as Hkeys.
    { unfold venue_blocks.
      eapply sublist_NoDup; [by apply indexed_blocks_keys_NoDup|].
      apply fmap_sublist, sublist_filter. }
    pose proof (find_matching_block_unique (fun y => f (expected_query trip y.2))
                  (venue_blocks mp) (ds_day_number day, i, b) Hkeys Hin) as Hfind.
    simpl in Hfind. unfold _select_poi_for_block, plan, mk.
    rewrite Hfind. simpl. by destruct (f (expected_query trip b)). }
  set (db1 := store_poi_plan trip_id now plan db).
  destruct (generate_itinerary_block trip_id now' db1 w0 trip mp
              {| im_trip_id := match itineraries db !! trip_id with
                               | Some im => im_trip_id im | None => trip_id end;
                 poi_plan := Some plan;
                 poi_plan_created_at := Some now;
                 im_days := itineraries db !! trip_id ≫= im_days;
                 itinerary_created_at :=
                   itineraries db !! trip_id ≫= itinerary_created_at;
                 im_created_at := match itineraries db !! trip_id with
                                  | Some im => im_created_at im | None => now end;
                 im_updated_at := now |}
              plan j day i b)
    as (resp & db2 & w2 & iday & Hg & Hd & Hl); try done.
  { unfold db1, store_poi_plan. simpl. rewrite lookup_insert_eq.
    by destruct (itineraries db !! trip_id). }
  eexists _, db1, resp, db2, w2, iday, _. split_and!; try done.
  - unfold generate_poi_plan. rewrite Ht, Hm. unfold mbind, M_bind, bind.
    by rewrite plan_days_answering.
  - rewrite <- Hsel. apply process_block_needs. by apply needs_poi_iff.
Qed.

End Pipeline.

Lemma generate_poi_plan_frame_witness :
  exists resp db' w',
    generate_poi_plan (returning [Sample.cafe]) 7%N "t1" Sample2.planned_db tt =
      (Ok (resp, db'), w') /\
    trips db' = trips Sample2.planned_db /\
    macro_plans db' = macro_plans Sample2.planned_db /\
    (forall other, other <> 7%N ->
       itineraries db' !! other = itineraries Sample2.planned_db !! other) /\
    stored_days 7%N db' = stored_days 7%N Sample2.planned_db /\
    (forall later,
       get_itinerary 7%N later db' = get_itinerary 7%N later Sample2.planned_db) /\
    itineraries db' !! 7%N ≫= itinerary_created_at =
      itineraries Sample2.planned_db !! 7%N ≫= itinerary_created_at /\
    itineraries db' !! 7%N ≫= poi_plan = Some (ppr_blocks resp) /\
    itineraries db' !! 7%N ≫= poi_plan_created_at = Some "t1".
Proof.
  eexists _, _, _. split; [reflexivity|].
  eapply (generate_poi_plan_frame (returning [Sample.cafe]) 7%N "t1"
            Sample2.planned_db tt).
  reflexivity.
Defined.

Lemma get_poi_plan_after_generate_witness :
  exists resp db' w',
    generate_poi_plan (returning [Sample.cafe]) 7%N "t1" Sample.db tt =
      (Ok (resp, db'), w') /\
    get_poi_plan 7%N "t9" db' =
      if decide (ppr_blocks resp = []) then None else Some resp.
Proof.
  eexists _, _, _. split; [reflexivity|].
  eapply (get_poi_plan_after_generate (returning [Sample.cafe]) 7%N "t1" "t9"
            Sample.db tt).
  reflexivity.
Defined.

Lemma empty_poi_plan_blocks_itinerary_witness :
  exists resp db',
    generate_poi_plan (failing (UpstreamError "down")) 9%N "t1" Sample2.idle_db tt =
      (Ok (resp, db'), tt) /\
    ppr_blocks resp = [] /\
    forall (W' : Type) (est : TravelTimeProvider W') (w2 : W'),
      exists msg,
        generate_itinerary 9%N "t2" db' w2 = (Raise (ValueError msg), db', w2).
Proof.
  apply (empty_poi_plan_blocks_itinerary (failing (UpstreamError "down"))
           9%N "t1" "t2" Sample2.idle_db tt Sample.trip
           {| days := [Sample2.idle_day] |}); reflexivity.
Defined.

Lemma poi_plan_stops_at_first_failure_witness :
  generate_poi_plan (logged tt (failing (UpstreamError "down")))
    7%N "t1" Sample.db (tt, []) =
    (Raise (UpstreamError "down"),
     (tt, [] ++ [(tt, expected_query Sample.trip (Sample.block MEAL (Some "Breakfast")))])).
Proof.
  apply (poi_plan_stops_at_first_failure (failing (UpstreamError "down"))
           7%N "t1" Sample.db tt [] Sample.trip Sample2.macro_plan
           (1, 0%nat, Sample.block MEAL (Some "Breakfast"))
           [(2, 0%nat, Sample.block MEAL None);
            (2, 3%nat, Sample.block ACTIVITY (Some "Art"))]);
    reflexivity.
Defined.

Lemma poi_plan_fails_iff_witness :
  ((exists e s',
      generate_poi_plan (logged tt (returning [Sample.cafe])) 99%N "t1" Sample.db
        (tt, []) = (Raise e, s'))
   <-> trips Sample.db !! 99%N = None \/ macro_plans Sample.db !! 99%N = None) /\
  (trips Sample.db !! 99%N = None \/ macro_plans Sample.db !! 99%N = None ->
   exists msg,
     generate_poi_plan (logged tt (returning [Sample.cafe])) 99%N "t1" Sample.db
       (tt, []) = (Raise (ValueError msg), (tt, []))).
Proof.
  apply (poi_plan_fails_iff (returning [Sample.cafe]) 99%N "t1" Sample.db tt []).
  intros q w0. exists [Sample.cafe], w0. reflexivity.
Defined.

Lemma pipeline_selects_own_first_candidate_witness :
  exists plan_resp db1 resp db2 w2 iday ib,
    generate_poi_plan (answering Sample2.by_category) 7%N "t1" Sample.db tt =
      (Ok (plan_resp, db1), tt) /\
    generate_itinerary 7%N "t2" db1 tt = (Ok resp, db2, w2) /\
    ir_days resp !! 1%nat = Some iday /\ id_blocks iday !! 3%nat = Some ib /\
    poi ib = head (Sample2.by_category
                     (expected_query Sample.trip (Sample.block ACTIVITY (Some "Art")))).
Proof.
  apply (pipeline_selects_own_first_candidate Sample2.by_category 7%N "t1" "t2"
           Sample.db tt tt Sample.trip Sample2.macro_plan 1 Sample.day2 3
           (Sample.block ACTIVITY (Some "Art"))); try reflexivity.
  - apply NoDup_cons. split; [|apply NoDup_singleton].
    intros Hin. apply list_elem_of_singleton in Hin. discriminate Hin.
  - right. by left.
Defined.

(* ===================================================================== *)
(** * Properties of the chat response cache *)
(* ===================================================================== *)

Section CacheFacts.
Context {V : Type}.
Implicit Types (cache : gmap string (ChatCache.CacheEntry V)) (key : string) (now : Z).

(** X15. With the clock inside the range of [datetime]: when the expiry
    instant [now + ttl] is inside that range too, [set] stores the value,
    [get] returns it up to and including the expiry instant, and
    afterwards [get] returns nothing and drops the key; when the expiry
    instant is outside the range, [set] raises [OverflowError] and the
    dictionary is left as it was. *)
Theorem cache_get_after_set now ttl key (v : V) cache later :
  ChatCache.datetime_min <= now <= ChatCache.datetime_max ->
  let expiry := now + ttl * 1000000 in
  let r := ChatCache.set now key v ttl cache in
  if decide (ChatCache.datetime_min <= expiry <= ChatCache.datetime_max) then
    r = (ChatCache.Stored,
         <[key := {| ChatCache.value := v; ChatCache.expires_at := expiry |}]> cache) /\
    ChatCache.get later key r.2 =
      if decide (later <= expiry) then (Some v, r.2) else (None, delete key cache)
  else r = (ChatCache.OverflowError, cache).
Proof.
  intros Hnow. cbv zeta.
  unfold ChatCache.set, ChatCache.new_entry, ChatCache.timedelta_seconds,
    ChatCache.datetime_add.
  unfold ChatCache.datetime_min, ChatCache.datetime_max in *.
  case_decide as Hr.
  - rewrite bool_decide_eq_true_2
      by (split; [apply Z.div_le_lower_bound|apply Z.div_le_upper_bound]; lia).
    simpl. rewrite bool_decide_eq_true_2 by done. simpl. split; [done|].
    unfold ChatCache.get, ChatCache.is_expired. rewrite lookup_insert_eq. simpl.
    case_bool_decide; case_decide; try lia; [|done].
    by rewrite delete_insert_eq.
  - case_bool_decide; simpl; [|done].
    by rewrite bool_decide_eq_false_2.
Qed.

Lemma get_value_spec now key cache :
  (ChatCache.get now key cache).1 =
    match cache !! key with
    | Some e => if ChatCache.is_expired now e then None else Some (ChatCache.value e)
    | None => None
    end.
Proof.
  unfold ChatCache.get. destruct (cache !! key) as [e|]; [|done].
  by destruct (ChatCache.is_expired now e).
Qed.

Lemma is_expired_mono now later (e : ChatCache.CacheEntry V) :
  now <= later -> ChatCache.is_expired now e = true ->
  ChatCache.is_expired later e = true.
Proof.
  unfold ChatCache.is_expired. intros Hle Hexp.
  apply bool_decide_eq_true in Hexp. apply bool_decide_eq_true. lia.
Qed.

(** X16. The deletion [get] performs on an expired entry cannot be seen
    by any later [get]: at every later instant and for every key, asking
    the dictionary left by a [get] gives what asking the dictionary before
    it gives.  In particular a key reported missing stays missing. *)
Theorem cache_get_is_unobservable now later key key' cache :
  now <= later ->
  (ChatCache.get later key' (ChatCache.get now key cache).2).1 =
    (ChatCache.get later key' cache).1.
Proof.
  intros Hle. rewrite !get_value_spec. unfold ChatCache.get.
  destruct (cache !! key) as [e|] eqn:Ek; [|done].
  destruct (ChatCache.is_expired now e) eqn:Hexp; [|done]. simpl.
  destruct (decide (key' = key)) as [->|Hne].
  - rewrite lookup_delete_eq, Ek. by rewrite (is_expired_mono now later e Hle Hexp).
  - by rewrite lookup_delete_ne.
Qed.

Lemma elem_of_expired_keys clock cache key :
  key ∈ ChatCache.expired_keys clock cache <->
  exists e, cache !! key = Some e /\ ChatCache.is_expired (clock key) e = true.
Proof.
  unfold ChatCache.expired_keys. rewrite list_elem_of_fmap. split.
  - intros ([k e] & -> & Hin). apply elem_of_map_to_list in Hin.
    apply map_lookup_filter_Some in Hin as [Hk Hexp]. by exists e.
  - intros (e & Hk & Hexp). exists (key, e). split; [done|].
    apply elem_of_map_to_list. by apply map_lookup_filter_Some.
Qed.

Lemma cleanup_lookup clock cache key :
  (ChatCache.cleanup_expired clock cache).2 !! key =
    match cache !! key with
    | Some e => if ChatCache.is_expired (clock key) e then None else Some e
    | None => None
    end.
Proof.
  unfold ChatCache.cleanup_expired. simpl.
  destruct (decide (key ∈ ChatCache.expired_keys clock cache)) as [Hin|Hnin].
  - rewrite lookup_foldr_delete by done.
    apply elem_of_expired_keys in Hin as (e & -> & ->). done.
  - rewrite lookup_foldr_delete_not_elem_of by done.
    destruct (cache !! key) as [e|] eqn:Ek; [|done].
    destruct (ChatCache.is_expired (clock key) e) eqn:Hexp; [|done].
    destruct Hnin. apply elem_of_expired_keys. by exists e.
Qed.

(** X17. [cleanup_expired] removes exactly the entries found expired and
    returns their number: an entry is kept if and only if it was not
    expired when examined, and the count plus the entries left is the
    number of entries before. *)
Theorem cache_cleanup_counts clock cache :
  let r := ChatCache.cleanup_expired clock cache in
  (r.1 + size r.2 = size cache)%nat /\
  (forall key e, r.2 !! key = Some e <->
     cache !! key = Some e /\ clock key <= ChatCache.expires_at e).
Proof.
  cbv zeta. split.
  - set (P := fun kv : string * ChatCache.CacheEntry V =>
                ChatCache.is_expired (clock kv.1) kv.2 = true).
    assert ((ChatCache.cleanup_expired clock cache).2 = filter (fun kv => ~ P kv) cache)
      as ->.
    { apply map_eq. intros k. rewrite cleanup_lookup.
      apply option_eq. intros e. rewrite map_lookup_filter_Some. unfold P. simpl.
      destruct (cache !! k) as [e'|].
      - destruct (ChatCache.is_expired (clock k) e') eqn:Hexp.
        + split; [done|]. intros [[= ->] Hn]. by destruct Hn.
        + split; [|by intros [? _]]. intros [= ->]. split; [done|congruence].
      - split; [done|by intros [? _]]. }
    unfold ChatCache.cleanup_expired, ChatCache.expired_keys. simpl.
    rewrite length_fmap, length_map_to_list. fold P.
    rewrite <- (map_size_disj_union _ _ (map_disjoint_filter_complement P cache)).
    by rewrite map_filter_union_complement.
  - intros key e. rewrite cleanup_lookup. unfold ChatCache.is_expired.
    destruct (cache !! key) as [e'|]; [|split; [done|by intros [? _]]].
    case_bool_decide.
    + split; [done|]. intros [[= ->] ?]. lia.
    + split; [|by intros [? _]]. intros [= ->]. split; [done|lia].
Qed.

(** X18. Cleaning up cannot be seen through [get]: at any instant not
    before the clock readings of the clean-up, [get] returns for every key
    what it would have returned without the clean-up. *)
Theorem cache_cleanup_is_unobservable clock cache later key :
  (forall k, clock k <= later) ->
  (ChatCache.get later key (ChatCache.cleanup_expired clock cache).2).1 =
    (ChatCache.get later key cache).1.
Proof.
  intros Hclock. rewrite !get_value_spec, cleanup_lookup.
  destruct (cache !! key) as [e|]; [|done].
  destruct (ChatCache.is_expired (clock key) e) eqn:Hexp; [|done].
  by rewrite (is_expired_mono (clock key) later e (Hclock key) Hexp).
Qed.

End CacheFacts.

Section CacheKeys.
Import TravelTimeFactory.

Lemma lower_ascii_idem c : lower_ascii (lower_ascii c) = lower_ascii c.
Proof. destruct c as [[] [] [] [] [] [] [] []]; reflexivity. Qed.

Lemma is_space_lower_ascii c : ChatCache.is_space (lower_ascii c) = ChatCache.is_space c.
Proof. destruct c as [[] [] [] [] [] [] [] []]; reflexivity. Qed.

Lemma lower_idem s : lower (lower s) = lower s.
Proof. induction s as [|c s IH]; simpl; [done|]. by rewrite lower_ascii_idem, IH. Qed.

Lemma lower_app s t : lower (s +:+ t) = lower s +:+ lower t.
Proof. induction s as [|c s IH]; simpl; [done|]. by rewrite IH. Qed.

Lemma lower_blank s : ChatCache.is_blank s -> ChatCache.is_blank (lower s).
Proof.
  unfold ChatCache.is_blank. induction s as [|c s IH]; simpl; [done|].
  intros [Hc Hs]%Forall_cons. constructor; [|by apply IH].
  by rewrite is_space_lower_ascii.
Qed.

Lemma lstrip_lower s : ChatCache.lstrip (lower s) = lower (ChatCache.lstrip s).
Proof.
  induction s as [|c s IH]; simpl; [done|]. rewrite is_space_lower_ascii.
  by destruct (ChatCache.is_space c).
Qed.

Lemma rstrip_lower s : ChatCache.rstrip (lower s) = lower (ChatCache.rstrip s).
Proof.
  induction s as [|c s IH]; simpl; [done|]. rewrite IH, is_space_lower_ascii.
  destruct (ChatCache.rstrip s); simpl; [|done].
  by destruct (ChatCache.is_space c).
Qed.

Lemma lstrip_blank_app b s :
  ChatCache.is_blank b -> ChatCache.lstrip (b +:+ s) = ChatCache.lstrip s.
Proof.
  unfold ChatCache.is_blank. induction b as [|c b IH]; simpl; [done|].
  intros [Hc Hb]%Forall_cons. rewrite Hc. by apply IH.
Qed.

Lemma rstrip_blank b : ChatCache.is_blank b -> ChatCache.rstrip b = "".
Proof.
  unfold ChatCache.is_blank. induction b as [|c b IH]; simpl; [done|].
  intros [Hc Hb]%Forall_cons. by rewrite (IH Hb), Hc.
Qed.

Lemma rstrip_app_blank s b :
  ChatCache.is_blank b -> ChatCache.rstrip (s +:+ b) = ChatCache.rstrip s.
Proof.
  intros Hb. induction s as [|c s IH]; simpl; [by apply rstrip_blank|].
  by rewrite IH.
Qed.

Lemma strip_app_blank s b :
  ChatCache.is_blank b -> ChatCache.strip (s +:+ b) = ChatCache.strip s.
Proof.
  intros Hb. unfold ChatCache.strip. induction s as [|c s IH]; simpl.
  - assert (ChatCache.is_blank (ChatCache.lstrip b)) as Hl.
    { clear -Hb. unfold ChatCache.is_blank in *.
      induction b as [|c b IH]; simpl; [done|].
      apply Forall_cons in Hb as [Hc Hb]. rewrite Hc. by apply IH. }
    by rewrite rstrip_blank.
  - destruct (ChatCache.is_space c); [done|].
    change (String c (s +:+ b)) with (String c s +:+ b).
    by apply rstrip_app_blank.
Qed.

Lemma rstrip_idem s : ChatCache.rstrip (ChatCache.rstrip s) = ChatCache.rstrip s.
Proof.
  induction s as [|c s IH]; simpl; [done|].
  destruct (ChatCache.rstrip s) as [|d r] eqn:Er.
  - destruct (ChatCache.is_space c) eqn:Hc; simpl; [done|]. by rewrite Hc.
  - simpl in *. by rewrite IH.
Qed.

Lemma lstrip_rstrip_lstrip s :
  ChatCache.lstrip (ChatCache.rstrip (ChatCache.lstrip s)) =
    ChatCache.rstrip (ChatCache.lstrip s).
Proof.
  induction s as [|c s IH]; simpl; [done|].
  destruct (ChatCache.is_space c) eqn:Hc; [done|]. simpl.
  destruct (ChatCache.rstrip s); simpl; rewrite ?Hc; simpl; by rewrite ?Hc.
Qed.

Lemma strip_idem s : ChatCache.strip (ChatCache.strip s) = ChatCache.strip s.
Proof. unfold ChatCache.strip. by rewrite lstrip_rstrip_lstrip, rstrip_idem. Qed.

(** X19. Normalising a message is idempotent, and cache keys do not
    depend on letter case or on white space around the message: two ASCII
    messages equal up to case, one of them wrapped in white space, get the
    same key for the same trip. *)
Theorem cache_key_ignores_case_and_padding
    (md5_hex : string -> string) trip_id m m' pre post :
  ChatCache.is_ascii_text m -> ChatCache.is_ascii_text m' ->
  ChatCache.is_blank pre -> ChatCache.is_blank post ->
  eq_ignore_case m m' ->
  ChatCache.normalize_message (ChatCache.normalize_message m) =
    ChatCache.normalize_message m /\
  ChatCache.generate_cache_key md5_hex trip_id (pre +:+ m +:+ post) =
    ChatCache.generate_cache_key md5_hex trip_id m'.
Proof.
  intros _ _ Hpre Hpost Heq. unfold ChatCache.generate_cache_key,
    ChatCache.normalize_message. split.
  - unfold ChatCache.strip.
    rewrite <- rstrip_lower, <- lstrip_lower, lower_idem.
    apply strip_idem.
  - do 4 f_equal. rewrite !lower_app.
    unfold ChatCache.strip at 1.
    rewrite lstrip_blank_app by by apply lower_blank.
    fold (ChatCache.strip (lower m +:+ lower post)).
    rewrite strip_app_blank by by apply lower_blank.
    by rewrite Heq.
Qed.

End CacheKeys.

(* ===================================================================== *)
(** * Properties of the day studio changes *)
(* ===================================================================== *)

Section StudioChanges.
Import DayStudio.

Lemma apply_changes_snoc changes change :
  apply_changes (changes ++ [change]) = apply_change (apply_changes changes) change.
Proof. unfold apply_changes. by rewrite fold_left_app. Qed.

Lemma setting_updates_snoc field changes change :
  setting_updates field (changes ++ [change]) =
    setting_updates field changes ++
    (if decide (change_type change = "update_settings")
     then option_list (truthy (field (data change))) else []).
Proof.
  unfold setting_updates. rewrite omap_app. f_equal. simpl.
  case_decide; [|done]. by destruct (truthy (field (data change))).
Qed.

Lemma preset_updates_snoc changes change :
  preset_updates (changes ++ [change]) =
    preset_updates changes ++
    (if decide (change_type change = "set_preset")
     then [cd_preset (data change)] else []).
Proof.
  unfold preset_updates. rewrite omap_app. f_equal. simpl.
  repeat case_decide; done.
Qed.

(** X20. Applying a batch of day changes is last-writer-wins per setting:
    each of tempo, start time, end time and budget ends as the last
    non-empty value an [update_settings] change gives it, or its default
    when there is none; the preset ends as the preset of the last
    [set_preset] change (possibly none); changes of any other type do not
    count. *)
Theorem day_changes_last_writer_wins changes :
  let r := apply_changes changes in
  tempo r.1 = default "medium" (last (setting_updates cd_tempo changes)) /\
  start_time r.1 = default "08:00" (last (setting_updates cd_start_time changes)) /\
  end_time r.1 = default "18:00" (last (setting_updates cd_end_time changes)) /\
  budget r.1 = default "medium" (last (setting_updates cd_budget changes)) /\
  r.2 = default None (last (preset_updates changes)).
Proof.
  cbv zeta. induction changes as [|change changes IH] using rev_ind; [done|].
  rewrite apply_changes_snoc, !setting_updates_snoc, preset_updates_snoc.
  destruct (apply_changes changes) as [st preset]. simpl in IH.
  destruct IH as (It & Is & Ie & Ib & Ip). unfold apply_change.
  destruct (decide (change_type change = "update_settings")) as [Hu|Hu].
  - simpl. rewrite decide_False by (rewrite Hu; discriminate). rewrite app_nil_r.
    split_and!; try done;
      match goal with
      | |- context [truthy ?x] => destruct (truthy x); simpl;
          [by rewrite last_snoc | by rewrite app_nil_r]
      end.
  - destruct (decide (change_type change = "set_preset")) as [Hp|Hp]; simpl.
    + rewrite !app_nil_r, last_snoc. by split_and!.
    + rewrite !app_nil_r. by split_and!.
Qed.

End StudioChanges.

(* ===================================================================== *)
(** * Properties of the POI plan endpoint *)
(* ===================================================================== *)

Section PoiPlanEndpoint.
Import PoiPlanApi TravelTimeFactory.

Lemma contains_of_prefix sub s : String.prefix sub s = true -> contains sub s = true.
Proof. destruct s; simpl; by intros ->. Qed.

Lemma contains_cons sub c s : contains sub s = true -> contains sub (String c s) = true.
Proof. simpl. intros ->. by destruct sub as [|d sub]; [|destruct (Ascii.ascii_dec d c); [destruct (String.prefix sub s)|]]. Qed.

Lemma contains_app_l sub pre s : contains sub s = true -> contains sub (pre +:+ s) = true.
Proof. intros Hs. induction pre as [|c pre IH]; [done|]. by apply contains_cons. Qed.

(** X21. Both prerequisite errors of POI planning surface as 404: for any
    trip id, the "Trip ... not found" and the "No macro plan found for trip
    ..." messages are mapped to Not Found by the endpoint, while a
    successful plan gives 201 and an exception that is not a [ValueError]
    gives 500. *)
Theorem poi_plan_prerequisite_errors_are_404 (trip_id : string) :
  create_poi_plan_status (A:=unit) (Raise (ValueError (trip_not_found trip_id))) = 404 /\
  create_poi_plan_status (A:=unit) (Raise (ValueError (no_macro_plan trip_id))) = 404 /\
  (forall msg, create_poi_plan_status (A:=unit) (Raise (UpstreamError msg)) = 500) /\
  (forall x : unit, create_poi_plan_status (Ok x) = 201).
Proof.
  unfold create_poi_plan_status, trip_not_found, no_macro_plan. split_and!; try done.
  - rewrite !lower_app.
    assert (contains "not found" (lower "Trip " +:+ lower trip_id +:+ lower " not found")
            = true) as ->; [|done].
    do 2 apply contains_app_l. reflexivity.
  - rewrite !lower_app.
    assert (contains "no macro plan"
              (lower "No macro plan found for trip " +:+ lower trip_id +:+
               lower ". Generate macro plan first.") = true) as ->.
    { apply contains_of_prefix. reflexivity. }
    by rewrite orb_true_r.
Qed.

End PoiPlanEndpoint.

(* ===================================================================== *)
(** * Properties of trip updates *)
(* ===================================================================== *)

Section TripUpdates.
Import TripSpecCollector.

Lemma window_or_idem requested current :
  window_or requested (window_or requested current) = window_or requested current.
Proof. by destruct requested as [[|??]|]. Qed.

Lemma apply_update_idem request now trip_model :
  apply_update request now (apply_update request now trip_model) =
    apply_update request now trip_model.
Proof.
  unfold apply_update. simpl. f_equal;
    try (by destruct request as [[] [] [] [] [] [] [] [] [] []]).
  destruct (r_daily_routine request) as [u|]; [|done].
  unfold update_routine. simpl. f_equal;
    try apply window_or_idem; unfold time_or;
    by destruct u as [[] [] ? ? ?].
Qed.

(** X22. A trip update is idempotent: sending the same partial update
    again, at the same instant, returns the same response and leaves the
    store as the first update left it. *)
Theorem update_trip_idempotent trip_id request now store :
  update_trip trip_id request now (update_trip trip_id request now store).2 =
    update_trip trip_id request now store.
Proof.
  unfold update_trip. destruct (store !! trip_id) as [m|] eqn:Em; simpl.
  - rewrite lookup_insert_eq, apply_update_idem. by rewrite insert_insert_eq.
  - by rewrite Em.
Qed.

(** X23. An update is read back by [get_trip] and touches no other trip:
    after [update_trip] the trip reads as the response returned; for a trip
    that does not exist the response is none and the store is left as it
    was (no row is created), for a trip that exists a response is
    returned; every other trip reads as before; and the row keeps its id
    and creation time while its update time becomes [now]. *)
Theorem update_trip_read_back trip_id request now store :
  let r := update_trip trip_id request now store in
  get_trip trip_id r.2 = r.1 /\
  (store !! trip_id = None -> r = (None, store)) /\
  (is_Some (store !! trip_id) -> is_Some r.1 /\ is_Some (r.2 !! trip_id)) /\
  (forall other, other <> trip_id -> r.2 !! other = store !! other) /\
  (forall m m', store !! trip_id = Some m -> r.2 !! trip_id = Some m' ->
     id m' = id m /\ created_at m' = created_at m /\ updated_at m' = now).
Proof.
  cbv zeta. unfold update_trip, get_trip.
  destruct (store !! trip_id) as [m|] eqn:Em; simpl.
  - rewrite lookup_insert_eq. split_and!; [done|done|by eauto| |].
    + intros other Hne. by rewrite lookup_insert_ne.
    + intros m0 m' [= <-]. by intros [= <-].
  - rewrite Em. split_and!; done.
Qed.

End TripUpdates.

Lemma cache_get_after_set_witness :
  let expiry := 1700000000000000 + 3600 * 1000000 in
  let r := ChatCache.set 1700000000000000 "chat:7:aa" "hello" 3600 Sample3.cache in
  if decide (ChatCache.datetime_min <= expiry <= ChatCache.datetime_max) then
    r = (ChatCache.Stored,
         <["chat:7:aa" := {| ChatCache.value := "hello";
                             ChatCache.expires_at := expiry |}]> Sample3.cache) /\
    ChatCache.get 1700003600000000 "chat:7:aa" r.2 =
      if decide (1700003600000000 <= expiry) then (Some "hello", r.2)
      else (None, delete "chat:7:aa" Sample3.cache)
  else r = (ChatCache.OverflowError, Sample3.cache).
Proof.
  apply (cache_get_after_set 1700000000000000 3600 "chat:7:aa" "hello"
           Sample3.cache 1700003600000000).
  unfold ChatCache.datetime_min, ChatCache.datetime_max. lia.
Defined.

Lemma cache_get_is_unobservable_witness :
  (ChatCache.get 300 "chat:7:aa" (ChatCache.get 200 "chat:7:aa" Sample3.cache).2).1 =
    (ChatCache.get 300 "chat:7:aa" Sample3.cache).1.
Proof.
  apply (cache_get_is_unobservable 200 300 "chat:7:aa" "chat:7:aa" Sample3.cache).
  lia.
Defined.

Lemma cache_cleanup_is_unobservable_witness :
  (ChatCache.get 300 "chat:7:bb"
     (ChatCache.cleanup_expired (fun _ => 200) Sample3.cache).2).1 =
    (ChatCache.get 300 "chat:7:bb" Sample3.cache).1.
Proof.
  apply (cache_cleanup_is_unobservable (fun _ => 200) Sample3.cache 300 "chat:7:bb").
  intros k. lia.
Defined.

Lemma cache_key_ignores_case_and_padding_witness :
  ChatCache.normalize_message (ChatCache.normalize_message "More Museums") =
    ChatCache.normalize_message "More Museums" /\
  ChatCache.generate_cache_key Sample3.plain_digest "7" ("  " +:+ "More Museums" +:+ " ") =
    ChatCache.generate_cache_key Sample3.plain_digest "7" "more museums".
Proof.
  apply (cache_key_ignores_case_and_padding Sample3.plain_digest "7"
           "More Museums" "more museums" "  " " ").
  - unfold ChatCache.is_ascii_text. simpl. repeat (constructor; [reflexivity|]).
    constructor.
  - unfold ChatCache.is_ascii_text. simpl. repeat (constructor; [reflexivity|]).
    constructor.
  - unfold ChatCache.is_blank. simpl. repeat (constructor; [reflexivity|]).
    constructor.
  - unfold ChatCache.is_blank. simpl. repeat (constructor; [reflexivity|]).
    constructor.
  - reflexivity.
Defined.

(** The sample cache at instant 200: one entry has expired. *)
Example sample_cache_cleanup :
  let r := ChatCache.cleanup_expired (fun _ => 200) Sample3.cache in
  (r.1, (ChatCache.get 200 "chat:7:aa" r.2).1, (ChatCache.get 200 "chat:7:bb" r.2).1)
  = (1%nat, None, Some "again").
Proof. vm_compute. reflexivity. Qed.

(** A time-to-live of 3e11 seconds from an instant in 2023 passes the year
    9999: nothing is stored. *)
Example sample_cache_overflow :
  ChatCache.set 1700000000000000 "chat:7:cc" "late" 300000000000 Sample3.cache =
    (ChatCache.OverflowError, Sample3.cache).
Proof. reflexivity. Qed.
